(** * kodi2jellyfin: a shallow embedding of [kodi2jellyfin.py]

    The script copies the "watched" state of a Kodi export (a tab separated
    file) into the two SQLite databases of a Jellyfin data directory.

    What is modelled, and how:
    - Python values that can be [None] are [option]s; a raised exception is
      the left summand of [exn + A].
    - [csv.reader] is taken as given: the input file, taken to be readable,
      is the list of rows it produces (each row a list of fields);
      [csv.DictReader] is modelled on top of it.
    - A generator is a finite sequence of yields closed by [StopIteration] or
      by a raised exception ([Generator]).
    - [int] on a string and [datetime] belong to Python's library: [int],
      the type [datetime], [fromisoformat] and [timestamp] are the interface
      [PythonLib]; every theorem holds for every implementation of it.
    - A SQLite connection keeps the committed content of its database file
      and the content the connection currently sees; statements work on the
      latter, [commit] and [rollback] move one onto the other.
    - SQL statements and [logging] calls are recorded in a trace: a SELECT
      when it is sent, a REPLACE, with the row it writes, when it runs.
    - An integer that SQLite stores is a signed 64-bit one: binding another
      raises [OverflowError]. *)

From Stdlib Require Import Ascii String ZArith QArith.
From stdpp Require Import gmap strings list fin_maps numbers.

Open Scope Z_scope.

(** ** Exceptions and results *)

Inductive exn : Type :=
| KeyError (key : string)
| TypeError
| ValueError
| AttributeError
| AssertionError
| OperationalError
| OverflowError
| OSError.

#[global] Instance exn_eq_dec : EqDecision exn.
Proof. solve_decision. Defined.

Definition bind_exn {A B : Type} (x : exn + A) (k : A → exn + B) : exn + B :=
  match x with
  | inl e => inl e
  | inr a => k a
  end.

Notation "x <~ e ;; k" := (bind_exn e (λ x, k))
  (at level 20, e at level 99, k at level 200).

(** ** Python's library

    [int(s)] for a string [s] (which white space and which digits it takes
    depends on Unicode tables and on the interpreter's limit on the number of
    digits), and [datetime], are not code of the script. *)

(** What [val.timestamp()] raises for the values it has no time stamp for. *)
Inductive timestamp_error : Type :=
| TimestampValueError
| TimestampOverflowError
| TimestampOSError.

Definition exn_of_timestamp_error (e : timestamp_error) : exn :=
  match e with
  | TimestampValueError => ValueError
  | TimestampOverflowError => OverflowError
  | TimestampOSError => OSError
  end.

Class PythonLib : Type := {
  (** [int(s)] for a string; [None] stands for its [ValueError]. *)
  int_of_str : string → option Z;
  datetime : Type;
  (** [datetime.fromisoformat(s)]; [None] stands for its [ValueError]. *)
  fromisoformat : string → option datetime;
  (** [val.timestamp()]: seconds since the epoch, or the exception raised. *)
  timestamp : datetime → timestamp_error + Q;
}.

(** [int(x)] for a field of a row: [None] is not a number ([TypeError]), a
    string that is not a literal is a [ValueError]. *)
Definition int `{PythonLib} (x : option string) : exn + Z :=
  match x with
  | None => inl TypeError
  | Some s =>
    match int_of_str s with
    | Some n => inr n
    | None => inl ValueError
    end
  end.

(** [int(x)] for a float: truncation towards zero.  A float is a rational. *)
Definition int_of_float (x : Q) : Z := Z.quot (Qnum x) (Z.pos (Qden x)).

Definition datetime_fromisoformat `{PythonLib} (x : option string) : exn + datetime :=
  match x with
  | None => inl TypeError
  | Some s =>
    match fromisoformat s with
    | Some d => inr d
    | None => inl ValueError
    end
  end.

(** The adapter registered for [datetime] parameters of SQL statements:
    [int(val.timestamp())]. *)
Definition adapt_datetime_epoch `{PythonLib} (val : datetime) : exn + Z :=
  match timestamp val with
  | inl e => inl (exn_of_timestamp_error e)
  | inr t => inr (int_of_float t)
  end.

(** ** Generators *)

Inductive Generator (A : Type) : Type :=
| StopIteration
| Raise (e : exn)
| Yield (a : A) (rest : Generator A).

Arguments StopIteration {A}.
Arguments Raise {A} e.
Arguments Yield {A} a rest.

(** The values a generator yields before it stops or raises. *)
Fixpoint yielded {A : Type} (g : Generator A) : list A :=
  match g with
  | StopIteration | Raise _ => []
  | Yield a rest => a :: yielded rest
  end.

(** The exception that ends the generator, if one does. *)
Fixpoint raised {A : Type} (g : Generator A) : option exn :=
  match g with
  | StopIteration => None
  | Raise e => Some e
  | Yield _ rest => raised rest
  end.

Fixpoint iter {A : Type} (l : list A) : Generator A :=
  match l with
  | [] => StopIteration
  | a :: l' => Yield a (iter l')
  end.

(** ** [KodiWatched] *)

Record KodiWatched `{PythonLib} : Type := {
  folder : option string;
  file_name : option string;
  last_played : option datetime;
  play_count : Z;
}.

Definition path `{PythonLib} (self : KodiWatched) : exn + string :=
  match folder self, file_name self with
  | Some d, Some f => inr (d +:+ f)
  | _, _ => inl TypeError
  end.

(** *** [csv.DictReader]

    A row becomes a dict from the field names to the fields: a name met
    twice keeps the later field, and the names a short row has no field for
    are bound to [None].  The fields a long row has beyond the names are
    kept by Python under the key [None], which no string key reaches; they
    are left out. *)
Definition dict_of_row (fieldnames row : list string) : gmap string (option string) :=
  let d := foldl (λ d kv, <[kv.1 := Some kv.2]> d) ∅ (zip fieldnames row) in
  foldl (λ d key, <[key := None]> d) d (drop (length row) fieldnames).

(** Rows without any field (blank lines) are passed over. *)
Fixpoint DictReader_rows (fieldnames : list string) (rows : list (list string))
  : Generator (gmap string (option string)) :=
  match rows with
  | [] => StopIteration
  | [] :: rest => DictReader_rows fieldnames rest
  | row :: rest => Yield (dict_of_row fieldnames row) (DictReader_rows fieldnames rest)
  end.

(** The first row of the file is the header, whatever it holds. *)
Definition DictReader (rows : list (list string)) : Generator (gmap string (option string)) :=
  match rows with
  | [] => StopIteration
  | fieldnames :: rest => DictReader_rows fieldnames rest
  end.

(** [row[key]] *)
Definition getitem (row : gmap string (option string)) (key : string) : exn + option string :=
  match row !! key with
  | Some v => inr v
  | None => inl (KeyError key)
  end.

(** The call [cls(folder=..., file_name=..., last_played=..., play_count=...)]
    of [parse], its arguments evaluated from left to right. *)
Definition KodiWatched_of_row `{PythonLib} (row : gmap string (option string)) : exn + KodiWatched :=
  strPath <~ getitem row "strPath";;
  strFileName <~ getitem row "strFileName";;
  lastPlayed <~ getitem row "lastPlayed";;
  last_played <~ datetime_fromisoformat lastPlayed;;
  playCount <~ getitem row "playCount";;
  play_count <~ int playCount;;
  inr {| folder := strPath;
         file_name := strFileName;
         last_played := Some last_played;
         play_count := play_count |}.

Fixpoint parse_reader `{PythonLib} (reader : Generator (gmap string (option string)))
  : Generator KodiWatched :=
  match reader with
  | StopIteration => StopIteration
  | Raise e => Raise e
  | Yield row rest =>
    match KodiWatched_of_row row with
    | inl e => Raise e
    | inr kodi_watched => Yield kodi_watched (parse_reader rest)
    end
  end.

Definition parse `{PythonLib} (kodi_tsv : list (list string)) : Generator KodiWatched :=
  parse_reader (DictReader kodi_tsv).

(** ** The two databases *)

(** Modelled from the spec: the schema of the users store, a table of
    (internalId, username); the statements that create it are not part of
    the script. *)
Record UsersRow : Type := {
  InternalId : string;
  Username : string;
}.

(** Modelled from the spec: the items table maps a path to a userDataKey. *)
Record TypedBaseItemsRow : Type := {
  Path : string;
  UserDataKey : string;
}.

(** Modelled from the spec: the table of (key, userId, played, playCount,
    lastPlayedDate, isFavorite, playbackPositionTicks), keyed by key.  The
    column lastPlayedDate holds what the adapter of [datetime] stores. *)
Record UserDatasRow : Type := {
  key : string;
  userId : string;
  played : bool;
  playCount : Z;
  lastPlayedDate : Z;
  isFavorite : bool;
  playbackPositionTicks : Z;
}.

(** A table that does not exist is [None] (a database file that
    [sqlite3.connect] has just created holds no table): a statement on it
    raises [OperationalError]. *)
Record JellyfinDb : Type := {
  Users : option (list UsersRow);
}.

Record LibraryDb : Type := {
  TypedBaseItems : option (list TypedBaseItemsRow);
  UserDatas : option (gmap string UserDatasRow);
}.

(** The data directory: [jellyfin.db] and [library.db]. *)
Record DataDir : Type := {
  jellyfin_db : JellyfinDb;
  library_db : LibraryDb;
}.

(** *** [sqlite3.Connection]

    [committed] is the content of the file, which is all that is left once
    the connection is closed; [current] is what the statements of this
    connection read and write (a REPLACE opens a transaction without being
    asked to). *)
Record Connection (db : Type) : Type := {
  committed : db;
  current : db;
}.

Arguments committed {db} _.
Arguments current {db} _.

Definition connect {db : Type} (file : db) : Connection db :=
  {| committed := file; current := file |}.

Definition commit {db : Type} (con : Connection db) : Connection db :=
  {| committed := current con; current := current con |}.

Definition rollback {db : Type} (con : Connection db) : Connection db :=
  {| committed := committed con; current := committed con |}.

Definition close {db : Type} (con : Connection db) : db := committed con.

(** ** Dataclasses of the destination *)

Record JellyfinUser : Type := {
  username : string;
  internal_id : string;
}.

Module UserData.
Record t : Type := mk {
  key : string;
  user_id : string;
  played : bool;
  play_count : Z;
  last_played_date : Z;
  is_favorite : bool;
  playback_position_ticks : Z;
}.
End UserData.

Record JellyfinData : Type := {
  _jellyfin : Connection JellyfinDb;
  _library : Connection LibraryDb;
}.

(** ** Effects: the connections and the trace *)

Inductive event `{PythonLib} : Type :=
| SelectUsers (username : string)
| SelectTypedBaseItems (path : string)
| ReplaceUserDatas (row : UserDatasRow)
| SelectUserDatas (key : string)
| LoggingDebug (kodi_watched : KodiWatched)
| LoggingWarning (warning : string).

Record process `{PythonLib} : Type := {
  jellyfin_data : JellyfinData;
  trace : list event;
}.

Definition M `{PythonLib} (A : Type) : Type := process → (exn + A) * process.

Definition ret `{PythonLib} {A : Type} (a : A) : M A := λ s, (inr a, s).

Definition raise `{PythonLib} {A : Type} (e : exn) : M A := λ s, (inl e, s).

Definition bind `{PythonLib} {A B : Type} (c : M A) (k : A → M B) : M B :=
  λ s, match c s with
       | (inl e, s') => (inl e, s')
       | (inr a, s') => k a s'
       end.

Notation "x <- c ;; k" := (bind c (λ x, k))
  (at level 20, c at level 99, k at level 200).
Notation "c ;;; k" := (bind c (λ _, k))
  (at level 100, k at level 200, right associativity).

Definition lift `{PythonLib} {A : Type} (x : exn + A) : M A := λ s, (x, s).

Definition log `{PythonLib} (e : event) (s : process) : process :=
  {| jellyfin_data := jellyfin_data s; trace := trace s ++ [e] |}.

Definition emit `{PythonLib} (e : event) : M unit := λ s, (inr tt, log e s).

Definition get_jellyfin `{PythonLib} : M JellyfinDb :=
  λ s, (inr (current (_jellyfin (jellyfin_data s))), s).

Definition get_library `{PythonLib} : M LibraryDb :=
  λ s, (inr (current (_library (jellyfin_data s))), s).

Definition with_library `{PythonLib} (db : LibraryDb) (s : process) : process :=
  {| jellyfin_data :=
       {| _jellyfin := _jellyfin (jellyfin_data s);
          _library := {| committed := committed (_library (jellyfin_data s));
                         current := db |} |};
     trace := trace s |}.

Definition put_library `{PythonLib} (db : LibraryDb) : M unit :=
  λ s, (inr tt, with_library db s).

(** [row[column]] on the result of [fetchone]. *)
Definition subscript `{PythonLib} {R A : Type} (row : option R) (column : R → A) : M A :=
  match row with
  | None => raise TypeError
  | Some r => ret (column r)
  end.

(** *** The four statements, each with its [fetchone] where it has one

    A SELECT is recorded in the trace when it is sent. *)

Definition select_Users `{PythonLib} (username : string) : M (option UsersRow) :=
  emit (SelectUsers username);;;
  db <- get_jellyfin;;
  match Users db with
  | None => raise OperationalError
  | Some rows => ret (List.find (λ r, bool_decide (Username r = username)) rows)
  end.

Definition select_TypedBaseItems `{PythonLib} (path : string) : M (option TypedBaseItemsRow) :=
  emit (SelectTypedBaseItems path);;;
  db <- get_library;;
  match TypedBaseItems db with
  | None => raise OperationalError
  | Some rows => ret (List.find (λ r, bool_decide (Path r = path)) rows)
  end.

(** A parameter that is a Python [int] is bound as a signed 64-bit integer. *)
Definition bind_int (n : Z) : exn + Z :=
  if (- 2 ^ 63 <=? n) && (n <? 2 ^ 63) then inr n else inl OverflowError.

(** The parameters of the REPLACE, bound in the order of the statement's
    placeholders; the one for lastPlayedDate goes through the adapter
    first.  The strings, the booleans and the literal 0 always bind. *)
Definition bind_UserDatas `{PythonLib} (key user_id : string) (played : bool)
    (play_count : Z) (last_played_date : datetime) (is_favorite : bool)
    (playback_position_ticks : Z) : exn + UserDatasRow :=
  playCount <~ bind_int play_count;;
  adapted <~ adapt_datetime_epoch last_played_date;;
  lastPlayedDate <~ bind_int adapted;;
  playbackPositionTicks <~ bind_int playback_position_ticks;;
  inr {| key := key;
         userId := user_id;
         played := played;
         playCount := playCount;
         lastPlayedDate := lastPlayedDate;
         isFavorite := is_favorite;
         playbackPositionTicks := playbackPositionTicks |}.

(** The REPLACE is prepared (which fails without the table), its parameters
    are bound (which fails on a value SQLite cannot hold), and then it runs:
    the trace records it with the row it writes. *)
Definition replace_UserDatas `{PythonLib} (key user_id : string) (played : bool)
    (play_count : Z) (last_played_date : datetime) (is_favorite : bool)
    (playback_position_ticks : Z) : M unit :=
  db <- get_library;;
  match UserDatas db with
  | None => raise OperationalError
  | Some rows =>
    row <- lift (bind_UserDatas key user_id played play_count last_played_date
                   is_favorite playback_position_ticks);;
    emit (ReplaceUserDatas row);;;
    put_library {| TypedBaseItems := TypedBaseItems db;
                   UserDatas := Some (<[key := row]> rows) |}
  end.

Definition select_UserDatas `{PythonLib} (k : string) : M (option UserDatasRow) :=
  emit (SelectUserDatas k);;;
  db <- get_library;;
  match UserDatas db with
  | None => raise OperationalError
  | Some rows => ret (rows !! k)
  end.

(** ** [JellyfinData] *)

Definition get_user_by_name `{PythonLib} (username : string) : M JellyfinUser :=
  row <- select_Users username;;
  InternalId <- subscript row InternalId;;
  Username <- subscript row Username;;
  ret {| internal_id := InternalId; username := Username |}.

Definition get_user_data_key_for_path `{PythonLib} (path : string) : M (option string) :=
  row <- select_TypedBaseItems path;;
  match row with
  | None => ret None
  | Some row => ret (Some (UserDataKey row))
  end.

Definition upsert_user_data `{PythonLib} (key user_id : string) (played : bool)
    (play_count : Z) (last_played_date : datetime) : M unit :=
  replace_UserDatas key user_id played play_count last_played_date false 0.

Definition get_user_data `{PythonLib} (k : string) : M (option UserData.t) :=
  row <- select_UserDatas k;;
  match row with
  | None => ret None
  | Some row =>
    ret (Some {| UserData.key := key row;
                 UserData.user_id := userId row;
                 UserData.played := played row;
                 UserData.play_count := playCount row;
                 UserData.last_played_date := lastPlayedDate row;
                 UserData.is_favorite := isFavorite row;
                 UserData.playback_position_ticks := playbackPositionTicks row |})
  end.

(** [JellyfinData.open]: both files are connected, the body of the [with]
    statement runs where the generator yields; when it returns both
    connections are committed, and leaving [with jellyfin_con, library_con]
    commits them once more; when it raises, leaving rolls both back.  Both
    are closed in either case. *)
Definition open `{PythonLib} {A : Type} (jellyfin_data_dir : DataDir) (body : M A)
  : (exn + A) * DataDir * list event :=
  let jellyfin_con := connect (jellyfin_db jellyfin_data_dir) in
  let library_con := connect (library_db jellyfin_data_dir) in
  let s0 := {| jellyfin_data := {| _jellyfin := jellyfin_con; _library := library_con |};
               trace := [] |} in
  match body s0 with
  | (inr a, s) =>
    let jellyfin_con := commit (commit (_jellyfin (jellyfin_data s))) in
    let library_con := commit (commit (_library (jellyfin_data s))) in
    (inr a, {| jellyfin_db := close jellyfin_con; library_db := close library_con |}, trace s)
  | (inl e, s) =>
    let library_con := rollback (_library (jellyfin_data s)) in
    let jellyfin_con := rollback (_jellyfin (jellyfin_data s)) in
    (inl e, {| jellyfin_db := close jellyfin_con; library_db := close library_con |}, trace s)
  end.

(** ** [logging] *)

Definition logging_debug `{PythonLib} (kodi_watched : KodiWatched) : M unit :=
  emit (LoggingDebug kodi_watched).

Definition logging_warning `{PythonLib} (warning : string) : M unit :=
  emit (LoggingWarning warning).

(** ** [kodi2jellyfin] *)

Definition startswith (s pre : string) : bool := String.prefix pre s.

Definition newline : string := String (ascii_of_nat 10) EmptyString.

(** The condition [skip]: [or] evaluates its right operand only when the
    left one is false. *)
Definition skip `{PythonLib} (kodi_watched : KodiWatched) : exn + bool :=
  p <~ path kodi_watched;;
  if String.eqb p "/" then inr true
  else
    match folder kodi_watched with
    | Some d => inr (startswith d "plugin://")
    | None => inl AttributeError
    end.

(** One turn of the [for] loop; the list of the records missing from
    Jellyfin is threaded through. *)
Definition loop_body `{PythonLib} (user : JellyfinUser) (kodi_watched : KodiWatched)
    (kodi_watched_missing_from_jellyfin : list KodiWatched) : M (list KodiWatched) :=
  skip <- lift (skip kodi_watched);;
  if skip : bool then
    logging_debug kodi_watched;;;
    ret kodi_watched_missing_from_jellyfin
  else
    p <- lift (path kodi_watched);;
    user_data_key <- get_user_data_key_for_path p;;
    match user_data_key with
    | None => ret (kodi_watched_missing_from_jellyfin ++ [kodi_watched])
    | Some user_data_key =>
      match last_played kodi_watched with
      | None => raise AssertionError
      | Some last_played =>
        upsert_user_data user_data_key (internal_id user)
          (0 <? play_count kodi_watched) (play_count kodi_watched) last_played;;;
        ret kodi_watched_missing_from_jellyfin
      end
    end.

Fixpoint for_loop `{PythonLib} (user : JellyfinUser) (records : Generator KodiWatched)
    (kodi_watched_missing_from_jellyfin : list KodiWatched) : M (list KodiWatched) :=
  match records with
  | StopIteration => ret kodi_watched_missing_from_jellyfin
  | Raise e => raise e
  | Yield kodi_watched rest =>
    missing <- loop_body user kodi_watched kodi_watched_missing_from_jellyfin;;
    for_loop user rest missing
  end.

Definition warning_head : string :=
  "I ran into some files that are marked as watched in Kodi, but don't exist over in Jellyfin".

Fixpoint warning_lines `{PythonLib} (warning : string) (missing : list KodiWatched)
  : exn + string :=
  match missing with
  | [] => inr warning
  | kodi_watched :: rest =>
    p <~ path kodi_watched;;
    warning_lines (warning +:+ (newline +:+ p)) rest
  end.

Definition report `{PythonLib} (kodi_watched_missing_from_jellyfin : list KodiWatched)
  : M unit :=
  if (0 <? Z.of_nat (length kodi_watched_missing_from_jellyfin)) then
    warning <- lift (warning_lines warning_head kodi_watched_missing_from_jellyfin);;
    logging_warning warning
  else ret tt.

Definition kodi2jellyfin_body `{PythonLib} (kodi_tsv : list (list string))
    (jellyfin_username : string) : M unit :=
  user <- get_user_by_name jellyfin_username;;
  missing <- for_loop user (parse kodi_tsv) [];;
  report missing.

Definition kodi2jellyfin `{PythonLib} (kodi_tsv : list (list string))
    (jellyfin_data_dir : DataDir) (jellyfin_username : string)
  : (exn + unit) * DataDir * list event :=
  open jellyfin_data_dir (kodi2jellyfin_body kodi_tsv jellyfin_username).

(** The exit status of the interpreter: 1 when an exception leaves [main]. *)
Definition exit_status {A : Type} (r : exn + A) : Z :=
  match r with
  | inr _ => 0
  | inl _ => 1
  end.

Definition main `{PythonLib} (kodi_tsv : list (list string)) (jellyfin_data_dir : DataDir)
    (jellyfin_username : string) : Z * DataDir * list event :=
  let '(r, dir, tr) := kodi2jellyfin kodi_tsv jellyfin_data_dir jellyfin_username in
  (exit_status r, dir, tr).

(** ** An implementation of [PythonLib] for the examples

    [int] as CPython reads ASCII text, which is all the examples give it:
    white space (the codes 9 to 13 and 32) is dropped at both ends, one sign
    is allowed, the digits may be grouped by single underscores, and more
    than 4300 digits are refused.

    Naive date-times written [YYYY-MM-DD] or [YYYY-MM-DD?HH:MM:SS] ([?] any
    one character), with UTC as the local time zone. *)

Definition is_space (c : ascii) : bool :=
  let n := Z.of_nat (nat_of_ascii c) in
  ((9 <=? n) && (n <=? 13)) || (n =? 32).

Definition digit_value (c : ascii) : option Z :=
  let n := Z.of_nat (nat_of_ascii c) in
  if (48 <=? n) && (n <=? 57) then Some (n - 48) else None.

Fixpoint skip_spaces (cs : list ascii) : list ascii :=
  match cs with
  | c :: cs' => if is_space c then skip_spaces cs' else cs
  | [] => []
  end.

(** [scan_digits acc cs]: the scan after a digit; an underscore must be
    followed by a digit; the scan stops at the first other character, and
    what remains may only be white space. *)
Fixpoint scan_digits (acc : Z) (cs : list ascii) : option Z :=
  match cs with
  | [] => Some acc
  | c :: cs' =>
    match digit_value c with
    | Some d => scan_digits (10 * acc + d) cs'
    | None =>
      if Ascii.eqb c "_" then
        match cs' with
        | c2 :: cs'' =>
          match digit_value c2 with
          | Some d => scan_digits (10 * acc + d) cs''
          | None => None
          end
        | [] => None
        end
      else
        match skip_spaces cs with
        | [] => Some acc
        | _ :: _ => None
        end
    end
  end.

Definition scan_number (cs : list ascii) : option Z :=
  match cs with
  | c :: cs' =>
    match digit_value c with
    | Some d =>
      if (length (List.filter (λ c, bool_decide (is_Some (digit_value c))) cs) <=? 4300)%nat
      then scan_digits d cs'
      else None
    | None => None
    end
  | [] => None
  end.

Definition ascii_int_of_str (s : string) : option Z :=
  match skip_spaces (list_ascii_of_string s) with
  | c :: cs =>
    if Ascii.eqb c "+" then scan_number cs
    else if Ascii.eqb c "-" then Z.opp <$> scan_number cs
    else scan_number (c :: cs)
  | [] => None
  end.

Record naive_datetime : Type := {
  year : Z; month : Z; day : Z; hour : Z; minute : Z; second : Z;
}.

Fixpoint number (acc : Z) (cs : list ascii) : option Z :=
  match cs with
  | [] => Some acc
  | c :: cs' =>
    match digit_value c with
    | Some d => number (10 * acc + d) cs'
    | None => None
    end
  end.

Definition is_leap (y : Z) : bool :=
  ((y mod 4 =? 0) && negb (y mod 100 =? 0)) || (y mod 400 =? 0).

Definition days_in_month (y m : Z) : Z :=
  if m =? 2 then (if is_leap y then 29 else 28)
  else if (m =? 4) || (m =? 6) || (m =? 9) || (m =? 11) then 30 else 31.

Definition checked_datetime (y mo d h mi s : Z) : option naive_datetime :=
  if (1 <=? y) && (1 <=? mo) && (mo <=? 12) && (1 <=? d) && (d <=? days_in_month y mo)
     && (h <? 24) && (mi <? 60) && (s <? 60)
  then Some {| year := y; month := mo; day := d; hour := h; minute := mi; second := s |}
  else None.

Definition naive_fromisoformat (s : string) : option naive_datetime :=
  match list_ascii_of_string s with
  | y1 :: y2 :: y3 :: y4 :: "-"%char :: m1 :: m2 :: "-"%char :: d1 :: d2 :: time =>
    y ← number 0 [y1; y2; y3; y4];
    mo ← number 0 [m1; m2];
    d ← number 0 [d1; d2];
    match time with
    | [] => checked_datetime y mo d 0 0 0
    | [_; h1; h2; ":"%char; n1; n2; ":"%char; s1; s2] =>
      h ← number 0 [h1; h2];
      mi ← number 0 [n1; n2];
      s ← number 0 [s1; s2];
      checked_datetime y mo d h mi s
    | _ => None
    end
  | _ => None
  end.

(** Days from 1970-01-01 to the given day of the civil calendar. *)
Definition days_from_civil (y m d : Z) : Z :=
  let y' := if m <=? 2 then y - 1 else y in
  let era := y' / 400 in
  let yoe := y' - era * 400 in
  let mp := (m + 9) mod 12 in
  let doy := (153 * mp + 2) / 5 + d - 1 in
  let doe := yoe * 365 + yoe / 4 - yoe / 100 + doy in
  era * 146097 + doe - 719468.

(** CPython also looks at the local time of the day before, which for the
    first day of year 1 lies in year 0: [ValueError]. *)
Definition naive_timestamp (val : naive_datetime) : timestamp_error + Q :=
  if (year val =? 1) && (month val =? 1) && (day val =? 1)
  then inl TimestampValueError
  else inr (inject_Z (days_from_civil (year val) (month val) (day val) * 86400
                      + hour val * 3600 + minute val * 60 + second val)).

Definition sample_python : PythonLib :=
  {| int_of_str := ascii_int_of_str;
     datetime := naive_datetime;
     fromisoformat := naive_fromisoformat;
     timestamp := naive_timestamp |}.


(** ** Data of the examples *)

Module Ex.

Definition header : list string := ["strPath"; "strFileName"; "lastPlayed"; "playCount"].

Definition foo_row : list string := ["/movies/"; "foo.mkv"; "2023-01-01T00:00:00"; "3"].
Definition bar_row : list string := ["/movies/"; "bar.mkv"; "2023-02-03T04:05:06"; "1"].
Definition baz_row : list string := ["/shows/"; "baz.mkv"; "2023-02-03"; "0"].
Definition plugin_row : list string := ["plugin://video/"; "clip"; "2023-01-01T00:00:00"; "2"].
Definition root_row : list string := ["/"; ""; "2023-01-01T00:00:00"; "7"].
Definition negative_row : list string := ["/movies/"; "foo.mkv"; "2023-01-01T00:00:00"; "-1"].
Definition bad_count_row : list string := ["/movies/"; "bar.mkv"; "2023-01-01T00:00:00"; "three"].

Definition alice : JellyfinUser := {| username := "alice"; internal_id := "u1" |}.

Definition new_year : @datetime sample_python :=
  {| year := 2023; month := 1; day := 1; hour := 0; minute := 0; second := 0 |}.

Definition foo : @KodiWatched sample_python :=
  {| folder := Some "/movies/"; file_name := Some "foo.mkv";
     last_played := Some new_year; play_count := 3 |}.

Definition plugin_clip : @KodiWatched sample_python :=
  {| folder := Some "plugin://video/"; file_name := Some "clip";
     last_played := Some new_year; play_count := 2 |}.

(** A row of key1 as the server may have left it: a favourite, half seen. *)
Definition old_row : UserDatasRow :=
  {| key := "key1"; userId := "u1"; played := false; playCount := 0;
     lastPlayedDate := 1600000000; isFavorite := true;
     playbackPositionTicks := 36000000000 |}.

Definition foo_written : UserDatasRow :=
  {| key := "key1"; userId := "u1"; played := true; playCount := 3;
     lastPlayedDate := 1672531200; isFavorite := false; playbackPositionTicks := 0 |}.

Definition users_db : JellyfinDb :=
  {| Users := Some [ {| InternalId := "u1"; Username := "alice" |} ] |}.

Definition items : list TypedBaseItemsRow :=
  [ {| Path := "/movies/foo.mkv"; UserDataKey := "key1" |} ].

Definition data_dir : DataDir :=
  {| jellyfin_db := users_db;
     library_db := {| TypedBaseItems := Some items;
                      UserDatas := Some {[ "key1" := old_row ]} |} |}.

Definition data_dir_after : DataDir :=
  {| jellyfin_db := users_db;
     library_db := {| TypedBaseItems := Some items;
                      UserDatas := Some {[ "key1" := foo_written ]} |} |}.

(** The state of a run on [data_dir] before its first statement. *)
Definition start : @process sample_python :=
  {| jellyfin_data := {| _jellyfin := connect (jellyfin_db data_dir);
                         _library := connect (library_db data_dir) |};
     trace := [] |}.

End Ex.

(** ** Vocabulary of the statements below *)

(** The library database as the statements of the run see it. *)
Definition library `{PythonLib} (s : process) : LibraryDb :=
  current (_library (jellyfin_data s)).

(** The key the items table gives a path: that of the first row with the
    path, as [fetchone] returns it. *)
Definition lookup_path (db : LibraryDb) (p : string) : option string :=
  match TypedBaseItems db with
  | Some rows =>
    match List.find (λ r, bool_decide (Path r = p)) rows with
    | Some row => Some (UserDataKey row)
    | None => None
    end
  | None => None
  end.

(** The row of UserDatas with the given key. *)
Definition user_data_at (db : LibraryDb) (k : string) : option UserDatasRow :=
  match UserDatas db with
  | Some rows => rows !! k
  | None => None
  end.

(** An integer that SQLite stores. *)
Definition int64 (n : Z) : Prop := - 2 ^ 63 <= n < 2 ^ 63.

(** The row the engine binds for a record, a key and a user, or the
    exception of the binding. *)
Definition row_for `{PythonLib} (user : JellyfinUser) (k : string) (play_count : Z)
    (last_played : datetime) : exn + UserDatasRow :=
  bind_UserDatas k (internal_id user) (0 <? play_count) play_count last_played false 0.

(** A play count and a time of last play that SQLite can hold. *)
Definition bindable `{PythonLib} (play_count : Z) (last_played_date : datetime) : Prop :=
  int64 play_count
  ∧ ∃ t, timestamp last_played_date = inr t ∧ int64 (Z.quot (Qnum t) (Z.pos (Qden t))).

(** A record whose play count and whose time of last play SQLite can hold. *)
Definition storable `{PythonLib} (r : KodiWatched) : Prop :=
  int64 (play_count r)
  ∧ ∀ lp, last_played r = Some lp →
      ∃ t, timestamp lp = inr t ∧ int64 (Z.quot (Qnum t) (Z.pos (Qden t))).

(** The warnings and the rows written that a trace records. *)
Definition warnings `{PythonLib} (tr : list event) : list string :=
  omap (λ e, match e with LoggingWarning w => Some w | _ => None end) tr.

Definition written `{PythonLib} (tr : list event) : list UserDatasRow :=
  omap (λ e, match e with ReplaceUserDatas row => Some row | _ => None end) tr.

Definition path_lookups `{PythonLib} (tr : list event) : list string :=
  omap (λ e, match e with SelectTypedBaseItems p => Some p | _ => None end) tr.

(** The records of a run that end in the list of the missing ones, the text
    of the warning for such a list, and the row written for a record that
    is applied (its path has a key and its values bind). *)
Definition unmatched_in `{PythonLib} (db : LibraryDb) (r : KodiWatched) : bool :=
  match skip r, path r with
  | inr false, inr p => bool_decide (lookup_path db p = None)
  | _, _ => false
  end.

Definition path_text `{PythonLib} (r : KodiWatched) : string :=
  match path r with
  | inr p => p
  | inl _ => ""
  end.

Definition warning_text `{PythonLib} (missing : list KodiWatched) : string :=
  foldl (λ w r, w +:+ (newline +:+ path_text r)) warning_head missing.

Definition applied_row `{PythonLib} (user : JellyfinUser) (db : LibraryDb) (r : KodiWatched)
  : option UserDatasRow :=
  match skip r, path r, last_played r with
  | inr false, inr p, Some lp =>
    match lookup_path db p with
    | Some k =>
      match row_for user k (play_count r) lp with
      | inr row => Some row
      | inl _ => None
      end
    | None => None
    end
  | _, _, _ => None
  end.

Definition looked_up `{PythonLib} (r : KodiWatched) : option string :=
  match skip r, path r with
  | inr false, inr p => Some p
  | _, _ => None
  end.

Definition is_AssertionError {A : Type} (r : exn + A) : bool :=
  match r with
  | inl AssertionError => true
  | _ => false
  end.

(** A record the loop resolves to the key [k]: it is not skipped and the
    items table gives its path the key. *)
Definition resolves_to `{PythonLib} (db : LibraryDb) (r : KodiWatched) (k : string) : Prop :=
  ∃ p, skip r = inr false ∧ path r = inr p ∧ lookup_path db p = Some k.

(** What a part of the run may change between two states: nothing of the
    users database, nothing that is committed, nothing of the items table,
    and of UserDatas only the rows of the keys in [K]. *)
Definition frame `{PythonLib} (K : string → Prop) (s s' : process) : Prop :=
  _jellyfin (jellyfin_data s') = _jellyfin (jellyfin_data s)
  ∧ committed (_library (jellyfin_data s')) = committed (_library (jellyfin_data s))
  ∧ TypedBaseItems (library s') = TypedBaseItems (library s)
  ∧ (is_Some (UserDatas (library s')) ↔ is_Some (UserDatas (library s)))
  ∧ ∀ k, ¬ K k → user_data_at (library s') k = user_data_at (library s) k.

(** A row that has a field under each of the four columns, the one under
    lastPlayed read by [fromisoformat] and the one under playCount by [int],
    with the record made of them; and a row that lacks a column, or a field
    under lastPlayed or playCount, or one that is read. *)
Definition complete_row `{PythonLib} (fieldnames row : list string) (r : KodiWatched) : Prop :=
  ∃ sp sf slp lp spc n,
    dict_of_row fieldnames row !! "strPath" = Some (Some sp)
    ∧ dict_of_row fieldnames row !! "strFileName" = Some (Some sf)
    ∧ dict_of_row fieldnames row !! "lastPlayed" = Some (Some slp)
    ∧ fromisoformat slp = Some lp
    ∧ dict_of_row fieldnames row !! "playCount" = Some (Some spc)
    ∧ int_of_str spc = Some n
    ∧ r = {| folder := Some sp; file_name := Some sf; last_played := Some lp;
             play_count := n |}.

Definition defective_row `{PythonLib} (fieldnames row : list string) : Prop :=
  (∃ k, k ∈ ["strPath"; "strFileName"; "lastPlayed"; "playCount"] ∧ k ∉ fieldnames)
  ∨ dict_of_row fieldnames row !! "lastPlayed" = Some None
  ∨ (∃ slp, dict_of_row fieldnames row !! "lastPlayed" = Some (Some slp)
            ∧ fromisoformat slp = None)
  ∨ dict_of_row fieldnames row !! "playCount" = Some None
  ∨ (∃ spc, dict_of_row fieldnames row !! "playCount" = Some (Some spc)
            ∧ int_of_str spc = None).

(** ** [JellyfinData._dict_factory]

    An item of [cursor.description] is a tuple whose first item is the name
    of the column (the other items are always [None]); the row factory binds
    each name to the value of the row at the same place, a name met twice
    keeping the later value. *)
Record column : Type := {
  column_name : string;
}.

Definition _dict_factory {V : Type} (description : list column) (row : list V)
  : gmap string V :=
  let fields := column_name <$> description in
  foldl (λ d kv, <[kv.1 := kv.2]> d) ∅ (zip fields row).

(** The rows of a list written one after the other into UserDatas. *)
Definition replace_rows (rows : list UserDatasRow) (m : gmap string UserDatasRow)
  : gmap string UserDatasRow :=
  foldl (λ m row, <[key row := row]> m) m rows.

(** Further data of the examples. *)
Module Ex2.

(** A data directory whose library database holds no table. *)
Definition no_library : DataDir :=
  {| jellyfin_db := Ex.users_db;
     library_db := {| TypedBaseItems := None; UserDatas := None |} |}.

Definition bar : @KodiWatched sample_python :=
  {| folder := Some "/movies/"; file_name := Some "bar.mkv";
     last_played := Some Ex.new_year; play_count := 1 |}.

Definition baz : @KodiWatched sample_python :=
  {| folder := Some "/shows/"; file_name := Some "baz.mkv";
     last_played := None; play_count := 0 |}.

(** The description of the cursor of [SELECT InternalId, Username]. *)
Definition users_description : list column :=
  [ {| column_name := "InternalId" |}; {| column_name := "Username" |} ].

End Ex2.

(** * Properties *)

Section Engine.
Context `{PythonLib}.
Implicit Types (s : process) (r : KodiWatched) (user : JellyfinUser).

(** ** [parse] *)

Lemma getitem_inr d k v : getitem d k = inr v ↔ d !! k = Some v.
Proof. unfold getitem. destruct (d !! k); split; congruence. Qed.

(** The rows [parse] accepts, and the record it makes of each. *)
Lemma KodiWatched_of_row_inr d r :
  KodiWatched_of_row d = inr r ↔
  ∃ sp sf slp lp spc n,
    d !! "strPath" = Some sp ∧ d !! "strFileName" = Some sf
    ∧ d !! "lastPlayed" = Some (Some slp) ∧ fromisoformat slp = Some lp
    ∧ d !! "playCount" = Some (Some spc) ∧ int_of_str spc = Some n
    ∧ r = {| folder := sp; file_name := sf; last_played := Some lp; play_count := n |}.
Proof.
  unfold KodiWatched_of_row, getitem, datetime_fromisoformat, int, bind_exn. split.
  - destruct (d !! "strPath") as [sp|]; [|discriminate].
    destruct (d !! "strFileName") as [sf|]; [|discriminate].
    destruct (d !! "lastPlayed") as [[slp|]|]; try discriminate.
    destruct (fromisoformat slp) as [lp|] eqn:Hlp; [|discriminate].
    destruct (d !! "playCount") as [[spc|]|]; try discriminate.
    destruct (int_of_str spc) as [n|] eqn:Hn; [|discriminate].
    intros [= <-]. by exists sp, sf, slp, lp, spc, n.
  - intros (sp & sf & slp & lp & spc & n & -> & -> & -> & Hlp & -> & Hn & ->).
    by rewrite Hlp, Hn.
Qed.

Lemma KodiWatched_of_row_inl d e :
  KodiWatched_of_row d = inl e → e = TypeError ∨ e = ValueError ∨ ∃ k, e = KeyError k.
Proof.
  unfold KodiWatched_of_row, getitem, datetime_fromisoformat, int, bind_exn.
  destruct (d !! "strPath") as [sp|]; [|intros [= <-]; eauto].
  destruct (d !! "strFileName") as [sf|]; [|intros [= <-]; eauto].
  destruct (d !! "lastPlayed") as [[slp|]|]; try (intros [= <-]; eauto).
  destruct (fromisoformat slp) as [lp|]; [|intros [= <-]; eauto].
  destruct (d !! "playCount") as [[spc|]|]; try (intros [= <-]; eauto).
  destruct (int_of_str spc) as [n|]; [discriminate|intros [= <-]; eauto].
Qed.

Lemma foldl_insert_none_notin (l : list string) : ∀ (d : gmap string (option string)) k,
  k ∉ l → foldl (λ d key, <[key := None]> d) d l !! k = d !! k.
Proof.
  induction l as [|a l IH]; intros d k Hk; simpl; [done|].
  rewrite IH by (intros ?; apply Hk; by right).
  apply lookup_insert_ne. intros ->. apply Hk. by left.
Qed.

Lemma foldl_insert_none_in (l : list string) : ∀ (d : gmap string (option string)) k,
  k ∈ l → foldl (λ d key, <[key := None]> d) d l !! k = Some None.
Proof.
  induction l as [|a l IH]; intros d k Hk; simpl; [by apply elem_of_nil in Hk|].
  destruct (decide (k ∈ l)) as [Hin|Hnin]; [by apply IH|].
  apply elem_of_cons in Hk as [->|?]; [|done].
  rewrite foldl_insert_none_notin by done. apply lookup_insert_eq.
Qed.

Lemma foldl_insert_some_None (l : list (string * string)) :
  ∀ (d : gmap string (option string)) k,
  foldl (λ d kv, <[kv.1 := Some kv.2]> d) d l !! k = None ↔ d !! k = None ∧ k ∉ l.*1.
Proof.
  induction l as [|[a v] l IH]; intros d k; simpl.
  - split; [intros ?; split; [done|apply not_elem_of_nil]|tauto].
  - rewrite IH, not_elem_of_cons, lookup_insert_None. simpl. intuition congruence.
Qed.

Lemma fst_zip_take {A B : Type} (l : list A) : ∀ (k : list B),
  (zip l k).*1 = take (length k) l.
Proof.
  induction l as [|a l IH]; intros [|b k]; simpl; try done. by rewrite IH.
Qed.

(** The dict of a row binds exactly the names of the header, and binds to
    [None] the names the row has no field for. *)
Lemma dict_of_row_None fieldnames row k :
  dict_of_row fieldnames row !! k = None ↔ k ∉ fieldnames.
Proof.
  unfold dict_of_row.
  rewrite <- (take_drop (length row) fieldnames) at 3.
  rewrite not_elem_of_app. split.
  - intros Hk. destruct (decide (k ∈ drop (length row) fieldnames)) as [Hin|Hnin].
    { by rewrite foldl_insert_none_in in Hk. }
    rewrite foldl_insert_none_notin in Hk by done.
    apply foldl_insert_some_None in Hk as [_ Hk]. by rewrite fst_zip_take in Hk.
  - intros [Ht Hd]. rewrite foldl_insert_none_notin by done.
    apply foldl_insert_some_None. split; [apply lookup_empty|]. by rewrite fst_zip_take.
Qed.

Lemma dict_of_row_short fieldnames row k :
  k ∈ drop (length row) fieldnames → dict_of_row fieldnames row !! k = Some None.
Proof. apply foldl_insert_none_in. Qed.

(** Rows that are all accepted give one record each, in the order of the
    file; rows without fields give none. *)
Lemma parse_rows_accepted fieldnames rows :
  Forall (λ row, row = [] ∨ ∃ r, KodiWatched_of_row (dict_of_row fieldnames row) = inr r)
    rows →
  raised (parse_reader (DictReader_rows fieldnames rows)) = None
  ∧ Forall2 (λ row r, KodiWatched_of_row (dict_of_row fieldnames row) = inr r)
      (List.filter (λ row, negb (bool_decide (row = []))) rows)
      (yielded (parse_reader (DictReader_rows fieldnames rows))).
Proof.
  induction rows as [|row rows IH]; intros Hrows; simpl.
  { split; [done|constructor]. }
  apply Forall_cons_1 in Hrows as [Hrow Hrows]. specialize (IH Hrows).
  destruct row as [|c row]; simpl; [exact IH|].
  destruct Hrow as [?|[r Hr]]; [done|]. rewrite Hr. simpl.
  destruct IH as [IH1 IH2]. split; [done|by constructor].
Qed.

(** The first row that is rejected ends the sequence with its exception,
    after the records of the rows before it. *)
Lemma parse_rows_rejected fieldnames pre row post e :
  Forall (λ row, row = [] ∨ ∃ r, KodiWatched_of_row (dict_of_row fieldnames row) = inr r)
    pre →
  row ≠ [] → KodiWatched_of_row (dict_of_row fieldnames row) = inl e →
  raised (parse_reader (DictReader_rows fieldnames (pre ++ row :: post))) = Some e
  ∧ Forall2 (λ row r, KodiWatched_of_row (dict_of_row fieldnames row) = inr r)
      (List.filter (λ row, negb (bool_decide (row = []))) pre)
      (yielded (parse_reader (DictReader_rows fieldnames (pre ++ row :: post)))).
Proof.
  intros Hpre Hne He. induction pre as [|x pre IH]; simpl.
  - destruct row as [|c row]; [done|]. simpl. rewrite He. simpl. split; [done|constructor].
  - apply Forall_cons_1 in Hpre as [Hx Hpre]. specialize (IH Hpre).
    destruct x as [|c x]; simpl; [exact IH|].
    destruct Hx as [?|[r Hr]]; [done|]. rewrite Hr. simpl.
    destruct IH as [IH1 IH2]. split; [done|by constructor].
Qed.

Lemma parse_rows_origin fieldnames rows :
  Forall (λ r, ∃ row, row ∈ rows ∧ KodiWatched_of_row (dict_of_row fieldnames row) = inr r)
    (yielded (parse_reader (DictReader_rows fieldnames rows))).
Proof.
  induction rows as [|row rows IH]; simpl; [constructor|].
  assert (Forall (λ r, ∃ row0, row0 ∈ row :: rows
            ∧ KodiWatched_of_row (dict_of_row fieldnames row0) = inr r)
            (yielded (parse_reader (DictReader_rows fieldnames rows)))) as IH'.
  { eapply List.Forall_impl; [|exact IH]. intros r (row0 & Hin & Hr). exists row0.
    split; [by right|done]. }
  destruct row as [|c row]; simpl; [done|].
  destruct (KodiWatched_of_row _) as [e|r] eqn:Hd; simpl; [constructor|].
  constructor; [|done]. exists (c :: row). split; [left|done].
Qed.

Lemma parse_reader_last_played (g : Generator (gmap string (option string))) :
  Forall (λ r, is_Some (last_played r)) (yielded (parse_reader g)).
Proof.
  induction g as [|e|d g IH]; simpl; try constructor.
  destruct (KodiWatched_of_row d) as [e|r] eqn:Hd; simpl; constructor; [|done].
  apply KodiWatched_of_row_inr in Hd
    as (sp & sf & slp & lp & spc & n & _ & _ & _ & _ & _ & _ & ->).
  simpl. eauto.
Qed.

Lemma DictReader_raised rows : raised (DictReader rows) = None.
Proof.
  destruct rows as [|fieldnames rows]; simpl; [done|].
  induction rows as [|[|c row] rows IH]; simpl; done.
Qed.

Lemma parse_reader_raised (g : Generator (gmap string (option string))) e :
  raised (parse_reader g) = Some e →
  raised g = Some e ∨ e = TypeError ∨ e = ValueError ∨ ∃ k, e = KeyError k.
Proof.
  induction g as [|e'|d g IH]; simpl; try done.
  - by left.
  - destruct (KodiWatched_of_row d) as [e'|r] eqn:Hd; simpl; [|done].
    intros [= <-]. right. by eapply KodiWatched_of_row_inl.
Qed.

Lemma parse_raised kodi_tsv e :
  raised (parse kodi_tsv) = Some e → e = TypeError ∨ e = ValueError ∨ ∃ k, e = KeyError k.
Proof.
  intros [He|He]%parse_reader_raised; [|done]. by rewrite DictReader_raised in He.
Qed.

Lemma iter_yielded {A : Type} (g : Generator A) : raised g = None → g = iter (yielded g).
Proof.
  induction g as [|e|a g IH]; simpl; intros Hr; [done|done|]. by rewrite <- IH.
Qed.

(** ** The loop *)

Lemma skip_inv r b :
  skip r = inr b → ∃ d f, folder r = Some d ∧ file_name r = Some f ∧ path r = inr (d +:+ f).
Proof.
  unfold skip, path. destruct (folder r) as [d|], (file_name r) as [f|]; simpl; try discriminate.
  eauto.
Qed.

Lemma loop_body_skipped user r missing s :
  skip r = inr true →
  loop_body user r missing s = (inr missing, log (LoggingDebug r) s).
Proof.
  intros Hs. unfold loop_body, bind, lift. rewrite Hs. reflexivity.
Qed.

Lemma loop_body_unmatched user r missing s p :
  skip r = inr false → path r = inr p →
  is_Some (TypedBaseItems (library s)) → lookup_path (library s) p = None →
  loop_body user r missing s = (inr (missing ++ [r]), log (SelectTypedBaseItems p) s).
Proof.
  intros Hs Hp [items Hi] Hl. unfold lookup_path in Hl. rewrite Hi in Hl.
  unfold loop_body, get_user_data_key_for_path, select_TypedBaseItems, get_library,
    emit, bind, lift, ret. rewrite Hs, Hp. simpl. unfold library in Hi. rewrite Hi.
  destruct (List.find _ items); [discriminate | reflexivity].
Qed.

Lemma bind_int_inr n m : bind_int n = inr m ↔ int64 n ∧ m = n.
Proof.
  unfold bind_int, int64. destruct (_ && _) eqn:E.
  - apply andb_prop in E as [E1 E2]. split; [intros [= <-]; lia|by intros [_ ->]].
  - apply andb_false_iff in E. split; [discriminate|]. intros [? _]. lia.
Qed.

Lemma bind_int_inl n e : bind_int n = inl e ↔ ¬ int64 n ∧ e = OverflowError.
Proof.
  unfold bind_int, int64. destruct (_ && _) eqn:E.
  - apply andb_prop in E as [E1 E2]. split; [discriminate|]. intros [? _]. lia.
  - apply andb_false_iff in E. split; [intros [= <-]; split; [lia|done]|by intros [_ ->]].
Qed.

(** The values that bind, and the row they make. *)
Lemma bind_UserDatas_inr k uid pl pc lp fav ticks row :
  bind_UserDatas k uid pl pc lp fav ticks = inr row ↔
  int64 pc ∧ int64 ticks
  ∧ ∃ t, timestamp lp = inr t ∧ int64 (Z.quot (Qnum t) (Z.pos (Qden t)))
    ∧ row = {| key := k; userId := uid; played := pl; playCount := pc;
               lastPlayedDate := Z.quot (Qnum t) (Z.pos (Qden t));
               isFavorite := fav; playbackPositionTicks := ticks |}.
Proof.
  unfold bind_UserDatas, adapt_datetime_epoch, int_of_float, bind_exn. split.
  - destruct (bind_int pc) as [e|pc'] eqn:Hpc; [discriminate|].
    apply bind_int_inr in Hpc as [Hpc ->].
    destruct (timestamp lp) as [e|t]; [discriminate|].
    destruct (bind_int (_ ÷ _)) as [e|n] eqn:Hn; [discriminate|].
    apply bind_int_inr in Hn as [Hn ->].
    destruct (bind_int ticks) as [e|ticks'] eqn:Ht; [discriminate|].
    apply bind_int_inr in Ht as [Ht ->].
    intros [= <-]. eauto 10.
  - intros (Hpc & Ht & t & -> & Hn & ->).
    rewrite (proj2 (bind_int_inr pc pc)) by done.
    rewrite (proj2 (bind_int_inr _ _) (conj Hn eq_refl)).
    by rewrite (proj2 (bind_int_inr ticks ticks)).
Qed.

Lemma bind_UserDatas_key k uid pl pc lp fav ticks row :
  bind_UserDatas k uid pl pc lp fav ticks = inr row → key row = k.
Proof. intros (_ & _ & t & _ & _ & ->)%bind_UserDatas_inr. reflexivity. Qed.

(** What binding raises: [OverflowError] or an exception of [timestamp]. *)
Lemma bind_UserDatas_inl k uid pl pc lp fav ticks e :
  bind_UserDatas k uid pl pc lp fav ticks = inl e →
  e = OverflowError ∨ e = ValueError ∨ e = OSError.
Proof.
  unfold bind_UserDatas, adapt_datetime_epoch, bind_exn.
  destruct (bind_int pc) as [e'|pc'] eqn:Hpc.
  { apply bind_int_inl in Hpc as [_ ->]. intros [= <-]. by left. }
  destruct (timestamp lp) as [[]|t]; try (intros [= <-]; simpl; tauto).
  destruct (bind_int (int_of_float t)) as [e'|n] eqn:Hn.
  { apply bind_int_inl in Hn as [_ ->]. intros [= <-]. by left. }
  destruct (bind_int ticks) as [e'|ticks'] eqn:Ht; [|discriminate].
  apply bind_int_inl in Ht as [_ ->]. intros [= <-]. by left.
Qed.

(** [upsert_user_data], case by case. *)
Lemma upsert_user_data_run k uid pl pc lp s :
  upsert_user_data k uid pl pc lp s =
    match UserDatas (library s) with
    | None => (inl OperationalError, s)
    | Some rows =>
      match bind_UserDatas k uid pl pc lp false 0 with
      | inl e => (inl e, s)
      | inr row =>
        (inr tt,
         with_library {| TypedBaseItems := TypedBaseItems (library s);
                         UserDatas := Some (<[k := row]> rows) |}
           (log (ReplaceUserDatas row) s))
      end
    end.
Proof.
  unfold upsert_user_data, replace_UserDatas, get_library, put_library, emit, bind, lift,
    raise, library.
  destruct (UserDatas _) as [rows|]; [|done].
  destruct (bind_UserDatas _ _ _ _ _ _ _) as [e|row]; done.
Qed.

Lemma upsert_user_data_some k uid pl pc lp s rows row :
  UserDatas (library s) = Some rows →
  bind_UserDatas k uid pl pc lp false 0 = inr row →
  upsert_user_data k uid pl pc lp s =
    (inr tt,
     with_library {| TypedBaseItems := TypedBaseItems (library s);
                     UserDatas := Some (<[k := row]> rows) |}
       (log (ReplaceUserDatas row) s)).
Proof. intros Hu Hb. by rewrite upsert_user_data_run, Hu, Hb. Qed.

Lemma upsert_user_data_unbound k uid pl pc lp s rows e :
  UserDatas (library s) = Some rows →
  bind_UserDatas k uid pl pc lp false 0 = inl e →
  upsert_user_data k uid pl pc lp s = (inl e, s).
Proof. intros Hu Hb. by rewrite upsert_user_data_run, Hu, Hb. Qed.

Lemma upsert_user_data_none k uid pl pc lp s :
  UserDatas (library s) = None →
  upsert_user_data k uid pl pc lp s = (inl OperationalError, s).
Proof. intros Hu. by rewrite upsert_user_data_run, Hu. Qed.

(** One turn of the loop for a record that resolves to a key: what is left
    is the upsert. *)
Lemma loop_body_matched user r missing s p k lp :
  skip r = inr false → path r = inr p → lookup_path (library s) p = Some k →
  last_played r = Some lp →
  loop_body user r missing s =
    match upsert_user_data k (internal_id user) (0 <? play_count r) (play_count r) lp
            (log (SelectTypedBaseItems p) s) with
    | (inl e, s') => (inl e, s')
    | (inr _, s') => (inr missing, s')
    end.
Proof.
  intros Hs Hp Hl Hlp. unfold lookup_path in Hl.
  unfold loop_body, get_user_data_key_for_path, select_TypedBaseItems, get_library,
    emit, bind, lift, ret. rewrite Hs, Hp. cbn [fst snd]. unfold library in *.
  change (current (_library (jellyfin_data (log (SelectTypedBaseItems p) s))))
    with (current (_library (jellyfin_data s))).
  destruct (TypedBaseItems _) as [items|] eqn:Hi; [|discriminate].
  destruct (List.find _ items) as [row|]; [|discriminate].
  injection Hl as ->. rewrite Hlp. reflexivity.
Qed.

Lemma loop_body_applied user r missing s p k lp rows row :
  skip r = inr false → path r = inr p → lookup_path (library s) p = Some k →
  last_played r = Some lp → UserDatas (library s) = Some rows →
  row_for user k (play_count r) lp = inr row →
  loop_body user r missing s =
    (inr missing,
     with_library
       {| TypedBaseItems := TypedBaseItems (library s);
          UserDatas := Some (<[k := row]> rows) |}
       (log (ReplaceUserDatas row) (log (SelectTypedBaseItems p) s))).
Proof.
  intros Hs Hp Hl Hlp Hu Hb.
  rewrite (loop_body_matched user r missing s p k lp) by done.
  by rewrite (upsert_user_data_some _ _ _ _ _ _ rows row).
Qed.

Lemma loop_body_unbound user r missing s p k lp rows e :
  skip r = inr false → path r = inr p → lookup_path (library s) p = Some k →
  last_played r = Some lp → UserDatas (library s) = Some rows →
  row_for user k (play_count r) lp = inl e →
  loop_body user r missing s = (inl e, log (SelectTypedBaseItems p) s).
Proof.
  intros Hs Hp Hl Hlp Hu Hb.
  rewrite (loop_body_matched user r missing s p k lp) by done.
  by rewrite (upsert_user_data_unbound _ _ _ _ _ _ rows e).
Qed.

Lemma loop_body_no_table user r missing s p k lp :
  skip r = inr false → path r = inr p → lookup_path (library s) p = Some k →
  last_played r = Some lp → UserDatas (library s) = None →
  loop_body user r missing s = (inl OperationalError, log (SelectTypedBaseItems p) s).
Proof.
  intros Hs Hp Hl Hlp Hu.
  rewrite (loop_body_matched user r missing s p k lp) by done.
  by rewrite upsert_user_data_none.
Qed.

Lemma frame_refl K s s' :
  jellyfin_data s' = jellyfin_data s → frame K s s'.
Proof.
  intros E. unfold frame, library. rewrite E. tauto.
Qed.

Lemma frame_trans (K1 K2 K : string → Prop) s1 s2 s3 :
  (∀ k, K1 k → K k) → (∀ k, K2 k → K k) →
  frame K1 s1 s2 → frame K2 s2 s3 → frame K s1 s3.
Proof.
  intros H1 H2 (A1 & B1 & C1 & D1 & E1) (A2 & B2 & C2 & D2 & E2).
  unfold frame. repeat split; try congruence; try tauto.
  intros k Hk. rewrite E2, E1; auto.
Qed.

Lemma lookup_path_items db db' p :
  TypedBaseItems db' = TypedBaseItems db → lookup_path db' p = lookup_path db p.
Proof. unfold lookup_path. intros ->. reflexivity. Qed.

(** One turn of the loop changes at most the row of the key its record
    resolves to. *)
Lemma loop_body_frame user r missing s :
  frame (resolves_to (library s) r) s (loop_body user r missing s).2.
Proof.
  destruct (skip r) as [e|[|]] eqn:Hs.
  - apply frame_refl. unfold loop_body, bind, lift. rewrite Hs. reflexivity.
  - rewrite loop_body_skipped by done. apply frame_refl. reflexivity.
  - destruct (skip_inv _ _ Hs) as (d & f & _ & _ & Hp).
    destruct (lookup_path (library s) (d +:+ f)) as [k|] eqn:Hl.
    + destruct (last_played r) as [lp|] eqn:Hlp.
      * rewrite (loop_body_matched user r missing s _ k lp) by done.
        rewrite upsert_user_data_run.
        change (library (log (SelectTypedBaseItems (d +:+ f)) s)) with (library s).
        destruct (UserDatas (library s)) as [rows|] eqn:Hu; [|by apply frame_refl].
        destruct (bind_UserDatas _ _ _ _ _ _ _) as [e|row]; [by apply frame_refl|].
        unfold frame, user_data_at. cbn [snd]. unfold library in *. simpl. rewrite Hu.
        repeat split; eauto.
        intros k' Hk. apply lookup_insert_ne. intros <-. apply Hk.
        by exists (d +:+ f).
      * unfold lookup_path in Hl.
        unfold loop_body, get_user_data_key_for_path, select_TypedBaseItems, get_library,
          emit, bind, lift, ret. rewrite Hs, Hp. simpl. unfold library in Hl.
        destruct (TypedBaseItems _) as [items|]; [|discriminate].
        destruct (List.find _ items) as [row|]; [|discriminate].
        rewrite Hlp. by apply frame_refl.
    + unfold lookup_path in Hl.
      unfold loop_body, get_user_data_key_for_path, select_TypedBaseItems, get_library,
        emit, bind, lift, ret. rewrite Hs, Hp. simpl. unfold library in Hl.
      destruct (TypedBaseItems _) as [items|]; [|by apply frame_refl].
      destruct (List.find _ items) as [row|]; [discriminate|]. by apply frame_refl.
Qed.

Lemma for_loop_frame user (g : Generator KodiWatched) : ∀ missing s,
  frame (λ k, ∃ r, r ∈ yielded g ∧ resolves_to (library s) r k) s
    (for_loop user g missing s).2.
Proof.
  induction g as [|e|r g IH]; intros missing s; simpl.
  - by apply frame_refl.
  - by apply frame_refl.
  - unfold bind. pose proof (loop_body_frame user r missing s) as Hb.
    destruct (loop_body user r missing s) as [[e|missing'] s1]; simpl in *.
    + eapply frame_trans; [| |exact Hb|by apply (frame_refl (λ _, False))].
      * intros k Hk. exists r. split; [left|done].
      * by intros k [].
    + specialize (IH missing' s1).
      eapply frame_trans; [| |exact Hb|exact IH].
      * intros k Hk. exists r. split; [left|done].
      * intros k (r' & Hin & p & Hs & Hp & Hl). exists r'. split; [by right|].
        exists p. repeat split; try done.
        rewrite <- Hl. symmetry. apply lookup_path_items. apply Hb.
Qed.

Lemma get_user_by_name_data name s :
  jellyfin_data (get_user_by_name name s).2 = jellyfin_data s.
Proof.
  unfold get_user_by_name, select_Users, get_jellyfin, subscript, emit, bind, ret, raise.
  simpl. destruct (Users _) as [rows|]; [|done].
  destruct (List.find _ rows); done.
Qed.

Lemma report_data missing s :
  jellyfin_data (report missing s).2 = jellyfin_data s.
Proof.
  unfold report, logging_warning, emit, bind, lift, ret.
  destruct (0 <? _); [|done]. destruct (warning_lines _ _); done.
Qed.

(** The body of the [with] statement as a whole. *)
Lemma body_frame kodi_tsv name s :
  frame (λ k, ∃ r, r ∈ yielded (parse kodi_tsv) ∧ resolves_to (library s) r k) s
    (kodi2jellyfin_body kodi_tsv name s).2.
Proof.
  unfold kodi2jellyfin_body, bind.
  pose proof (get_user_by_name_data name s) as Hu.
  destruct (get_user_by_name name s) as [[e|user] s1]; simpl in Hu.
  { by apply frame_refl. }
  pose proof (for_loop_frame user (parse kodi_tsv) [] s1) as Hf.
  assert (library s1 = library s) as Hl by (unfold library; by rewrite Hu).
  rewrite Hl in Hf.
  destruct (for_loop user (parse kodi_tsv) [] s1) as [[e|missing] s2]; simpl in Hf.
  - eapply frame_trans; [| |by apply (frame_refl (λ _, False) s s1)|exact Hf];
      [by intros k []|by intros k ?].
  - pose proof (report_data missing s2) as Hr.
    eapply frame_trans; [| |by apply (frame_refl (λ _, False) s s1)|];
      [by intros k []|intros k; apply id|].
    eapply frame_trans; [| |exact Hf|by apply (frame_refl (λ _, False))];
      [by intros k ?|by intros k []].
Qed.

Lemma skip_true r d f :
  folder r = Some d → file_name r = Some f →
  d +:+ f = "/" ∨ startswith d "plugin://" = true →
  skip r = inr true.
Proof.
  intros Hd Hf Hc. unfold skip, path. rewrite Hd, Hf. simpl.
  destruct (String.eqb_spec (d +:+ f) "/") as [_|Hne]; [done|].
  destruct Hc as [? | ->]; done.
Qed.

Lemma find_no_match {A : Type} (f : A → bool) (l : list A) :
  (∀ x, x ∈ l → f x = false) → List.find f l = None.
Proof.
  induction l as [|a l IH]; intros Hl; simpl; [done|].
  rewrite (Hl a) by left. apply IH. intros x Hx. apply Hl. by right.
Qed.

Lemma written_log_other s e :
  (∀ row, e ≠ ReplaceUserDatas row) → written (trace (log e s)) = written (trace s).
Proof.
  intros He. unfold written, log. simpl. rewrite omap_app. simpl.
  destruct e; try by rewrite app_nil_r. by destruct (He row).
Qed.

Lemma path_lookups_log_other s e :
  (∀ p, e ≠ SelectTypedBaseItems p) →
  path_lookups (trace (log e s)) = path_lookups (trace s).
Proof.
  intros He. unfold path_lookups, log. simpl. rewrite omap_app. simpl.
  destruct e; try by rewrite app_nil_r. by destruct (He path0).
Qed.

Lemma int64_0 : int64 0.
Proof. unfold int64. lia. Qed.

Lemma bind_UserDatas_ok k uid pl pc lp t :
  int64 pc → timestamp lp = inr t → int64 (Z.quot (Qnum t) (Z.pos (Qden t))) →
  bind_UserDatas k uid pl pc lp false 0 =
    inr {| key := k; userId := uid; played := pl; playCount := pc;
           lastPlayedDate := Z.quot (Qnum t) (Z.pos (Qden t));
           isFavorite := false; playbackPositionTicks := 0 |}.
Proof.
  intros Hpc Ht Hn. apply bind_UserDatas_inr. split; [done|]. split; [apply int64_0|].
  by exists t.
Qed.

Lemma bind_UserDatas_overflow k uid pl pc lp :
  ¬ int64 pc → bind_UserDatas k uid pl pc lp false 0 = inl OverflowError.
Proof.
  intros Hpc. unfold bind_UserDatas.
  by rewrite (proj2 (bind_int_inl pc OverflowError)).
Qed.

Lemma bind_UserDatas_timestamp_error k uid pl pc lp e :
  int64 pc → timestamp lp = inl e →
  bind_UserDatas k uid pl pc lp false 0 = inl (exn_of_timestamp_error e).
Proof.
  intros Hpc Ht. unfold bind_UserDatas, adapt_datetime_epoch.
  rewrite (proj2 (bind_int_inr pc pc)) by done. simpl. by rewrite Ht.
Qed.

Lemma bind_UserDatas_timestamp_overflow k uid pl pc lp t :
  int64 pc → timestamp lp = inr t → ¬ int64 (Z.quot (Qnum t) (Z.pos (Qden t))) →
  bind_UserDatas k uid pl pc lp false 0 = inl OverflowError.
Proof.
  intros Hpc Ht Hn. unfold bind_UserDatas, adapt_datetime_epoch, int_of_float.
  rewrite (proj2 (bind_int_inr pc pc)) by done. simpl. rewrite Ht. simpl.
  by rewrite (proj2 (bind_int_inl _ OverflowError)).
Qed.

Lemma bind_UserDatas_bindable k uid pl pc lp row :
  bind_UserDatas k uid pl pc lp false 0 = inr row → bindable pc lp.
Proof.
  intros (Hpc & _ & t & Ht & Hn & _)%bind_UserDatas_inr. split; [done|]. by exists t.
Qed.

Lemma row_for_inr user k pc lp t :
  int64 pc → timestamp lp = inr t → int64 (Z.quot (Qnum t) (Z.pos (Qden t))) →
  row_for user k pc lp =
    inr {| key := k; userId := internal_id user; played := 0 <? pc; playCount := pc;
           lastPlayedDate := Z.quot (Qnum t) (Z.pos (Qden t));
           isFavorite := false; playbackPositionTicks := 0 |}.
Proof. apply bind_UserDatas_ok. Qed.

Lemma loop_body_unchecked user r missing s p k :
  skip r = inr false → path r = inr p → lookup_path (library s) p = Some k →
  last_played r = None →
  loop_body user r missing s = (inl AssertionError, log (SelectTypedBaseItems p) s).
Proof.
  intros Hs Hp Hl Hlp. unfold lookup_path in Hl.
  unfold loop_body, get_user_data_key_for_path, select_TypedBaseItems, get_library,
    emit, bind, lift, ret. rewrite Hs, Hp. simpl. unfold library in Hl.
  destruct (TypedBaseItems _) as [items|]; [|discriminate].
  destruct (List.find _ items) as [row|]; [|discriminate]. by rewrite Hlp.
Qed.

(** C1: for a record that the loop resolves to a key [k] (it is not skipped
    and the items table gives its path the key).  Whenever the turn of the
    loop ends normally, the row under [k] is exactly (k, the user's internal
    id, played = (0 < playCount), playCount, the seconds that [timestamp]
    gives for the time of last play, cut towards zero, isFavorite = false,
    playbackPositionTicks = 0), whatever row or none was there before, and
    [get_user_data] reads the same row back.  With UserDatas there, the turn
    does end normally when the play count and these seconds are signed
    64-bit integers; when they are not, or [timestamp] raises, the turn
    raises ([OverflowError], [ValueError] or [OSError]) after the lookup of
    the path and nothing is written. *)
Theorem C1_upsert_replaces_row user r missing s p k :
  skip r = inr false → path r = inr p → lookup_path (library s) p = Some k →
  (∀ m' s', loop_body user r missing s = (inr m', s') →
     ∃ lp t, last_played r = Some lp ∧ timestamp lp = inr t ∧ m' = missing
       ∧ written (trace s') = written (trace s) ++
           [{| key := k; userId := internal_id user; played := 0 <? play_count r;
               playCount := play_count r;
               lastPlayedDate := Z.quot (Qnum t) (Z.pos (Qden t));
               isFavorite := false; playbackPositionTicks := 0 |}]
       ∧ user_data_at (library s') k =
           Some {| key := k; userId := internal_id user; played := 0 <? play_count r;
                   playCount := play_count r;
                   lastPlayedDate := Z.quot (Qnum t) (Z.pos (Qden t));
                   isFavorite := false; playbackPositionTicks := 0 |}
       ∧ (get_user_data k s').1 =
           inr (Some (UserData.mk k (internal_id user) (0 <? play_count r) (play_count r)
                        (Z.quot (Qnum t) (Z.pos (Qden t))) false 0)))
  ∧ (∀ lp, last_played r = Some lp → is_Some (UserDatas (library s)) →
       bindable (play_count r) lp →
       ∃ s', loop_body user r missing s = (inr missing, s'))
  ∧ (∀ lp, last_played r = Some lp → is_Some (UserDatas (library s)) →
       ¬ bindable (play_count r) lp →
       ∃ e, loop_body user r missing s = (inl e, log (SelectTypedBaseItems p) s)
            ∧ (e = OverflowError ∨ e = ValueError ∨ e = OSError)).
Proof.
  intros Hs Hp Hl. split; [|split].
  - intros m' s' Hrun. destruct (last_played r) as [lp|] eqn:Hlp.
    2:{ by rewrite (loop_body_unchecked user r missing s p k) in Hrun. }
    destruct (UserDatas (library s)) as [rows|] eqn:Hu.
    2:{ by rewrite (loop_body_no_table user r missing s p k lp) in Hrun. }
    destruct (row_for user k (play_count r) lp) as [e|row] eqn:Hb.
    { by rewrite (loop_body_unbound user r missing s p k lp rows e) in Hrun. }
    rewrite (loop_body_applied user r missing s p k lp rows row) in Hrun by done.
    injection Hrun as <- <-.
    apply bind_UserDatas_inr in Hb as (_ & _ & t & Ht & _ & ->).
    exists lp, t. split; [done|]. split; [done|]. split; [done|]. split; [|split].
    + unfold written, with_library, log. simpl. rewrite !omap_app. simpl.
      by rewrite app_nil_r.
    + unfold user_data_at, library. simpl. apply lookup_insert_eq.
    + unfold get_user_data, select_UserDatas, get_library, emit, bind, ret. simpl.
      rewrite lookup_insert_eq. reflexivity.
  - intros lp Hlp [rows Hu] (Hpc & t & Ht & Hn). eexists.
    apply (loop_body_applied user r missing s p k lp rows); try done.
    by apply (row_for_inr _ _ _ _ t).
  - intros lp Hlp [rows Hu] Hnb.
    destruct (row_for user k (play_count r) lp) as [e|row] eqn:Hb.
    2:{ destruct Hnb. by eapply bind_UserDatas_bindable. }
    exists e. split; [by apply (loop_body_unbound user r missing s p k lp rows)|].
    by eapply bind_UserDatas_inl.
Qed.

(** C2: when the run ends with an exception, whatever it is and however
    many rows were written before it, the data directory holds afterwards
    what it held before: nothing of the run is committed. *)
Theorem C2_no_partial_commit kodi_tsv dir name e dir' tr :
  kodi2jellyfin kodi_tsv dir name = (inl e, dir', tr) → dir' = dir.
Proof.
  unfold kodi2jellyfin, open.
  match goal with |- context [kodi2jellyfin_body _ _ ?s0] =>
    pose proof (body_frame kodi_tsv name s0) as (A & B & _) end.
  destruct (kodi2jellyfin_body _ _ _) as [[e'|[]] s1]; [|discriminate].
  intros [= _ <- _]. simpl in *. unfold close, rollback. simpl. rewrite A, B.
  by destruct dir.
Qed.

(** C3: a record that has a folder and a file name, and whose
    path is "/" or whose folder starts with "plugin://", is passed over: the
    turn of the loop ends normally, the list of missing records is as it was,
    the connections are as they were, and the only event is the debug
    message; no statement is sent to a database.  The time of last play and
    the play count of the record play no part. *)
Theorem C3_skip_before_store_access user r missing s d f :
  folder r = Some d → file_name r = Some f →
  d +:+ f = "/" ∨ startswith d "plugin://" = true →
  loop_body user r missing s = (inr missing, log (LoggingDebug r) s)
  ∧ jellyfin_data (log (LoggingDebug r) s) = jellyfin_data s
  ∧ path_lookups (trace (log (LoggingDebug r) s)) = path_lookups (trace s)
  ∧ written (trace (log (LoggingDebug r) s)) = written (trace s).
Proof.
  intros Hd Hf Hc. split; [|split; [|split]].
  - apply loop_body_skipped. by eapply skip_true.
  - reflexivity.
  - by apply path_lookups_log_other.
  - by apply written_log_other.
Qed.

(** C5: writing the same row twice is writing it once: after the second
    [upsert_user_data] with the same arguments the connections hold what they
    held after the first, and so does a second turn of the loop on the same
    record. *)
Theorem C5_upsert_idempotent user r m m' k uid pl pc lp s :
  (let s1 := (upsert_user_data k uid pl pc lp s).2 in
   let s2 := (upsert_user_data k uid pl pc lp s1).2 in
   jellyfin_data s2 = jellyfin_data s1
   ∧ user_data_at (library s2) k = user_data_at (library s1) k)
  ∧ (let s1 := (loop_body user r m s).2 in
     let s2 := (loop_body user r m' s1).2 in
     jellyfin_data s2 = jellyfin_data s1).
Proof.
  assert (∀ k uid pl pc lp s,
            let s1 := (upsert_user_data k uid pl pc lp s).2 in
            let s2 := (upsert_user_data k uid pl pc lp s1).2 in
            jellyfin_data s2 = jellyfin_data s1) as Hupsert.
  { clear. intros k uid pl pc lp s. cbv zeta.
    destruct (UserDatas (library s)) as [rows|] eqn:Hu.
    - destruct (bind_UserDatas k uid pl pc lp false 0) as [e|row] eqn:Hb.
      + rewrite (upsert_user_data_unbound _ _ _ _ _ _ _ _ Hu Hb). cbn [snd].
        by rewrite (upsert_user_data_unbound _ _ _ _ _ _ _ _ Hu Hb).
      + rewrite (upsert_user_data_some _ _ _ _ _ _ _ _ Hu Hb). cbn [snd].
        erewrite upsert_user_data_some; [|reflexivity|exact Hb]. simpl.
        by rewrite insert_insert_eq.
    - rewrite (upsert_user_data_none _ _ _ _ _ _ Hu). cbn [snd].
      by rewrite upsert_user_data_none. }
  split.
  - cbv zeta. split; [apply Hupsert|].
    unfold library. f_equal. f_equal. f_equal. apply Hupsert.
  - cbv zeta. destruct (skip r) as [e|[|]] eqn:Hs.
    + unfold loop_body, bind, lift. rewrite Hs. reflexivity.
    + rewrite (loop_body_skipped user r m s Hs). cbn [snd].
      by rewrite loop_body_skipped.
    + destruct (skip_inv _ _ Hs) as (d & f & _ & _ & Hp).
      destruct (TypedBaseItems (library s)) as [items|] eqn:Hi.
      2:{ unfold loop_body, get_user_data_key_for_path, select_TypedBaseItems,
            get_library, emit, bind, lift, ret. rewrite Hs, Hp. simpl.
          unfold library in Hi. rewrite Hi. simpl. rewrite Hi. reflexivity. }
      destruct (lookup_path (library s) (d +:+ f)) as [key|] eqn:Hl.
      2:{ rewrite (loop_body_unmatched user r m s _ Hs Hp); [|rewrite Hi; eauto|done].
          cbn [snd]. rewrite (loop_body_unmatched _ _ _ _ _ Hs Hp); [done| |done].
          unfold library, log. simpl. unfold library in Hi. rewrite Hi. eauto. }
      assert (∃ row, List.find (λ x : TypedBaseItemsRow, bool_decide (Path x = d +:+ f))
                       items = Some row)
        as [row Hf].
      { unfold lookup_path in Hl. rewrite Hi in Hl. destruct (List.find _ items); eauto.
        discriminate. }
      destruct (last_played r) as [lp'|] eqn:Hlp.
      2:{ unfold library in Hi.
          unfold loop_body, get_user_data_key_for_path, select_TypedBaseItems,
            get_library, emit, bind, lift, ret.
          repeat (simpl; rewrite ?Hs, ?Hp, ?Hi, ?Hf, ?Hlp). reflexivity. }
      destruct (UserDatas (library s)) as [rows|] eqn:Hu.
      2:{ rewrite (loop_body_no_table user r m s _ _ _ Hs Hp Hl Hlp Hu). cbn [snd].
          by rewrite (loop_body_no_table user r m' _ (d +:+ f) key lp'). }
      destruct (row_for user key (play_count r) lp') as [e|w] eqn:Hb.
      { rewrite (loop_body_unbound user r m s _ _ _ _ _ Hs Hp Hl Hlp Hu Hb). cbn [snd].
        by rewrite (loop_body_unbound user r m' _ (d +:+ f) key lp' rows e). }
      rewrite (loop_body_applied user r m s _ _ _ _ _ Hs Hp Hl Hlp Hu Hb). cbn [snd].
      erewrite (loop_body_applied _ _ _ _ _ key lp'); [|done|done| |done|reflexivity|done].
      * simpl. by rewrite insert_insert_eq.
      * rewrite <- Hl. by apply lookup_path_items.
Qed.

(** C6: when the Users table has no row with the given user name (compared
    exactly), [get_user_by_name] raises (the [TypeError] of reading a column
    of the missing row), and so does the whole run, with exit status 1: the
    only statement it has sent is the SELECT on Users, no row was written and
    the data directory is as it was. *)
Theorem C6_user_not_found kodi_tsv dir name users :
  Users (jellyfin_db dir) = Some users →
  (∀ row, row ∈ users → Username row ≠ name) →
  (∀ s, current (_jellyfin (jellyfin_data s)) = jellyfin_db dir →
        get_user_by_name name s = (inl TypeError, log (SelectUsers name) s))
  ∧ kodi2jellyfin kodi_tsv dir name = (inl TypeError, dir, [SelectUsers name])
  ∧ main kodi_tsv dir name = (1, dir, [SelectUsers name]).
Proof.
  intros Hu Hn.
  assert (List.find (λ x : UsersRow, bool_decide (Username x = name)) users = None) as Hf.
  { apply find_no_match. intros row Hr. apply bool_decide_eq_false. by apply Hn. }
  assert (∀ s, current (_jellyfin (jellyfin_data s)) = jellyfin_db dir →
            get_user_by_name name s = (inl TypeError, log (SelectUsers name) s)) as Hg.
  { intros s Hs.
    unfold get_user_by_name, select_Users, get_jellyfin, subscript, emit, bind, ret, raise.
    simpl. rewrite Hs, Hu, Hf. reflexivity. }
  assert (kodi2jellyfin kodi_tsv dir name = (inl TypeError, dir, [SelectUsers name])) as Hk.
  { unfold kodi2jellyfin, open, kodi2jellyfin_body, bind. rewrite Hg by done.
    simpl. by destruct dir. }
  repeat split; [done|done|]. unfold main. by rewrite Hk.
Qed.

(** C10: a run, however it ends, leaves the users database and the items
    table as they were, creates or drops no table, and leaves every row of
    UserDatas as it was except under the keys that the items table gives to
    the path of some record of the input that is not skipped. *)
Theorem C10_frame kodi_tsv dir name :
  let dir' := (kodi2jellyfin kodi_tsv dir name).1.2 in
  jellyfin_db dir' = jellyfin_db dir
  ∧ TypedBaseItems (library_db dir') = TypedBaseItems (library_db dir)
  ∧ (is_Some (UserDatas (library_db dir')) ↔ is_Some (UserDatas (library_db dir)))
  ∧ ∀ k, (∀ r, r ∈ yielded (parse kodi_tsv) → ¬ resolves_to (library_db dir) r k) →
         user_data_at (library_db dir') k = user_data_at (library_db dir) k.
Proof.
  simpl. unfold kodi2jellyfin, open.
  match goal with |- context [kodi2jellyfin_body _ _ ?s0] =>
    pose proof (body_frame kodi_tsv name s0) as (A & B & C & D & E) end.
  destruct (kodi2jellyfin_body _ _ _) as [[e'|[]] s1]; simpl in *.
  - unfold close, rollback. simpl. rewrite A, B. simpl. repeat split; try tauto.
  - unfold close, commit. simpl. rewrite A. simpl. unfold library in *. simpl in *.
    repeat split; try tauto.
    intros k Hk. apply E. intros (r & Hin & Hr). by apply (Hk r).
Qed.

(** *** Exceptions that are never an [AssertionError] *)

Lemma path_inl r e : path r = inl e → e = TypeError.
Proof.
  unfold path. destruct (folder r), (file_name r); intros [= <-]; done.
Qed.

Lemma skip_inl r e : skip r = inl e → is_AssertionError (@inl exn unit e) = false.
Proof.
  unfold skip, bind_exn. destruct (path r) as [e'|p] eqn:Hp.
  - intros [= <-]. by rewrite (path_inl _ _ Hp).
  - destruct (String.eqb p "/"); [discriminate|].
    destruct (folder r); [discriminate|]. by intros [= <-].
Qed.

Lemma loop_body_no_assertion user r missing s :
  is_Some (last_played r) → is_AssertionError (loop_body user r missing s).1 = false.
Proof.
  intros [lp Hlp]. destruct (skip r) as [e|[|]] eqn:Hs.
  - unfold loop_body, bind, lift. rewrite Hs. simpl.
    apply skip_inl in Hs. by destruct e.
  - by rewrite loop_body_skipped.
  - destruct (skip_inv _ _ Hs) as (d & f & _ & _ & Hp).
    destruct (lookup_path (library s) (d +:+ f)) as [k|] eqn:Hl.
    + rewrite (loop_body_matched user r missing s _ k lp) by done.
      rewrite upsert_user_data_run.
      destruct (UserDatas _); [|done].
      destruct (bind_UserDatas _ _ _ _ _ _ _) as [e|row] eqn:Hb; [|done].
      by destruct (bind_UserDatas_inl _ _ _ _ _ _ _ _ Hb) as [He|[He|He]]; rewrite He.
    + unfold lookup_path in Hl.
      unfold loop_body, get_user_data_key_for_path, select_TypedBaseItems, get_library,
        emit, bind, lift, ret. rewrite Hs, Hp. simpl. unfold library in Hl.
      destruct (TypedBaseItems _) as [items|]; [|done].
      destruct (List.find _ items) as [row|]; [discriminate|done].
Qed.

Lemma for_loop_no_assertion user (g : Generator KodiWatched) : ∀ missing s,
  Forall (λ r, is_Some (last_played r)) (yielded g) →
  raised g ≠ Some AssertionError →
  is_AssertionError (for_loop user g missing s).1 = false.
Proof.
  induction g as [|e|r g IH]; intros missing s Hy Hr; simpl in *.
  - done.
  - by destruct e.
  - apply Forall_cons_1 in Hy as [Hlp Hy]. unfold bind.
    pose proof (loop_body_no_assertion user r missing s Hlp) as Hb.
    destruct (loop_body user r missing s) as [[e|missing'] s1]; simpl in *; [done|].
    by apply IH.
Qed.

Lemma warning_lines_inl (missing : list KodiWatched) : ∀ w e,
  warning_lines w missing = inl e → e = TypeError.
Proof.
  induction missing as [|r missing IH]; intros w e; simpl; [discriminate|].
  unfold bind_exn. destruct (path r) as [e'|p] eqn:Hp.
  - intros [= <-]. by eapply path_inl.
  - apply IH.
Qed.

(** *** A run without failure *)

Lemma warning_lines_text (missing : list KodiWatched) : ∀ w,
  Forall (λ r, ∃ p, path r = inr p) missing →
  warning_lines w missing = inr (foldl (λ w r, w +:+ (newline +:+ path_text r)) w missing).
Proof.
  induction missing as [|r missing IH]; intros w Hm; simpl; [done|].
  apply Forall_cons_1 in Hm as [[p Hp] Hm]. unfold path_text. rewrite Hp. simpl.
  by apply IH.
Qed.

Lemma unmatched_in_path db r : unmatched_in db r = true → ∃ p, path r = inr p.
Proof.
  unfold unmatched_in. destruct (skip r) as [|[|]]; try discriminate.
  destruct (path r); [discriminate|eauto].
Qed.

Lemma trace_log_app s e : trace (log e s) = trace s ++ [e].
Proof. reflexivity. Qed.

Lemma storable_row_for user k r lp :
  storable r → last_played r = Some lp → ∃ row, row_for user k (play_count r) lp = inr row.
Proof.
  intros [Hpc Ht] Hlp. destruct (Ht lp Hlp) as (t & Hts & Hn).
  eexists. by apply (row_for_inr _ _ _ _ t).
Qed.

(** The loop over records that all have a path and a time, and values that
    SQLite can hold where they are written, on a library with both tables:
    what it returns and what it leaves in the trace. *)
Lemma for_loop_ok user db0 (rs : list KodiWatched) : ∀ missing s,
  TypedBaseItems (library s) = TypedBaseItems db0 →
  is_Some (TypedBaseItems db0) →
  is_Some (UserDatas (library s)) →
  Forall (λ r, is_Some (folder r) ∧ is_Some (file_name r) ∧ is_Some (last_played r)) rs →
  Forall (λ r, (∃ k, resolves_to db0 r k) → storable r) rs →
  ∃ s', for_loop user (iter rs) missing s =
          (inr (missing ++ List.filter (unmatched_in db0) rs), s')
    ∧ warnings (trace s') = warnings (trace s)
    ∧ written (trace s') = written (trace s) ++ omap (applied_row user db0) rs
    ∧ path_lookups (trace s') = path_lookups (trace s) ++ omap looked_up rs.
Proof.
  induction rs as [|r rs IH]; intros missing s Hi Hi0 Hu Hrs Hst; simpl.
  { exists s. by rewrite !app_nil_r. }
  apply Forall_cons_1 in Hrs as [([d Hd] & [f Hf] & [lp Hlp]) Hrs].
  apply Forall_cons_1 in Hst as [Hstr Hst].
  assert (path r = inr (d +:+ f)) as Hp by (unfold path; by rewrite Hd, Hf).
  assert (∃ b, skip r = inr b) as [b Hs].
  { unfold skip, bind_exn. rewrite Hp, Hd. destruct (String.eqb _ _); eauto. }
  unfold bind. destruct b.
  - assert (unmatched_in db0 r = false) as -> by (unfold unmatched_in; by rewrite Hs).
    assert (applied_row user db0 r = None) as -> by (unfold applied_row; by rewrite Hs).
    assert (looked_up r = None) as -> by (unfold looked_up; by rewrite Hs).
    rewrite loop_body_skipped by done.
    destruct (IH missing (log (LoggingDebug r) s)) as (s' & -> & Hw & Hr & Hl); try done.
    exists s'. split; [done|]. rewrite Hw, Hr, Hl. unfold warnings, written, path_lookups.
    rewrite !trace_log_app, !omap_app. simpl. by rewrite !app_nil_r.
  - pose proof (lookup_path_items db0 (library s) (d +:+ f) Hi) as Hl0.
    assert (looked_up r = Some (d +:+ f)) as -> by (unfold looked_up; by rewrite Hs, Hp).
    destruct (lookup_path db0 (d +:+ f)) as [k|] eqn:Hk.
    + assert (unmatched_in db0 r = false) as ->.
      { unfold unmatched_in. rewrite Hs, Hp, Hk. done. }
      destruct (storable_row_for user k r lp) as [row Hrow]; [|done|].
      { apply Hstr. exists k, (d +:+ f). done. }
      assert (applied_row user db0 r = Some row) as ->.
      { unfold applied_row. by rewrite Hs, Hp, Hlp, Hk, Hrow. }
      destruct Hu as [rows Hu].
      rewrite (loop_body_applied _ _ _ _ _ _ _ _ _ Hs Hp Hl0 Hlp Hu Hrow).
      match goal with |- context [for_loop user (iter rs) missing ?s1] =>
        destruct (IH missing s1) as (s' & -> & Hw & Hr & Hl); try done end.
      exists s'. split; [done|].
      rewrite Hw, Hr, Hl. unfold warnings, written, path_lookups, with_library. simpl.
      rewrite !omap_app. simpl. rewrite !app_nil_r, <- !app_assoc. done.
    + assert (unmatched_in db0 r = true) as ->.
      { unfold unmatched_in. rewrite Hs, Hp, Hk. done. }
      assert (applied_row user db0 r = None) as ->.
      { unfold applied_row. by rewrite Hs, Hp, Hlp, Hk. }
      rewrite (loop_body_unmatched _ _ _ _ _ Hs Hp); [| |done].
      2:{ rewrite Hi. done. }
      destruct (IH (missing ++ [r]) (log (SelectTypedBaseItems (d +:+ f)) s))
        as (s' & -> & Hw & Hr & Hl); try done.
      exists s'. rewrite <- app_assoc. split; [done|].
      rewrite Hw, Hr, Hl. unfold warnings, written, path_lookups.
      rewrite !trace_log_app, !omap_app. simpl. rewrite !app_nil_r, <- ?app_assoc. done.
Qed.

Lemma get_user_by_name_found name s users urow :
  Users (current (_jellyfin (jellyfin_data s))) = Some users →
  List.find (λ x : UsersRow, bool_decide (Username x = name)) users = Some urow →
  get_user_by_name name s =
    (inr {| username := Username urow; internal_id := InternalId urow |},
     log (SelectUsers name) s).
Proof.
  intros Hu Hf.
  unfold get_user_by_name, select_Users, get_jellyfin, subscript, emit, bind, ret, raise.
  simpl. rewrite Hu, Hf. reflexivity.
Qed.

(** C4: a turn of the loop on a record that is not skipped and whose path
    the items table does not know sends the one SELECT, writes nothing, adds
    the record at the end of the list of missing records and ends normally.
    In a run where the user is found, both tables of the library exist,
    every row gives a record with a path, and the records that resolve to a
    key have a play count and a time of last play that SQLite can hold (so
    that no upsert raises), these records are collected, in order, while the
    loop goes on over all the records: the run ends normally,
    with exit status 0; the rows written are those of the records that are
    applied, none for a missing one; the items table is asked for the path of
    every record that is not skipped; and the trace holds no warning when no
    record is missing, and otherwise one warning, whose text is the fixed
    sentence followed by a line with the path of each missing record. *)
Theorem C4_unmatched_reported kodi_tsv dir name users urow :
  Users (jellyfin_db dir) = Some users →
  List.find (λ x : UsersRow, bool_decide (Username x = name)) users = Some urow →
  is_Some (TypedBaseItems (library_db dir)) → is_Some (UserDatas (library_db dir)) →
  raised (parse kodi_tsv) = None →
  Forall (λ r, is_Some (folder r) ∧ is_Some (file_name r)) (yielded (parse kodi_tsv)) →
  Forall (λ r, (∃ k, resolves_to (library_db dir) r k) → storable r)
    (yielded (parse kodi_tsv)) →
  let user := {| username := Username urow; internal_id := InternalId urow |} in
  let records := yielded (parse kodi_tsv) in
  let missing := List.filter (unmatched_in (library_db dir)) records in
  (∀ r p batch s,
     skip r = inr false → path r = inr p →
     is_Some (TypedBaseItems (library s)) → lookup_path (library s) p = None →
     loop_body user r batch s = (inr (batch ++ [r]), log (SelectTypedBaseItems p) s))
  ∧ ∃ dir' tr,
      kodi2jellyfin kodi_tsv dir name = (inr tt, dir', tr)
      ∧ main kodi_tsv dir name = (0, dir', tr)
      ∧ warnings tr = match missing with [] => [] | _ :: _ => [warning_text missing] end
      ∧ written tr = omap (applied_row user (library_db dir)) records
      ∧ Forall (λ r, applied_row user (library_db dir) r = None) missing
      ∧ path_lookups tr = omap looked_up records.
Proof.
  intros Hu Hf Hi Hd Hr Hrs Hst user records missing.
  split; [intros r p batch s; apply loop_body_unmatched|].
  assert (Forall (λ r, applied_row user (library_db dir) r = None) missing) as Hnone.
  { apply List.Forall_forall. intros r [_ Hm]%filter_In. unfold unmatched_in in Hm.
    unfold applied_row. destruct (skip r) as [|[|]]; try done.
    destruct (path r) as [|p]; [done|]. apply bool_decide_eq_true in Hm. rewrite Hm.
    by destruct (last_played r). }
  assert (∃ dir' tr, kodi2jellyfin kodi_tsv dir name = (inr tt, dir', tr)
            ∧ warnings tr = match missing with [] => [] | _ :: _ => [warning_text missing] end
            ∧ written tr = omap (applied_row user (library_db dir)) records
            ∧ path_lookups tr = omap looked_up records) as (dir' & tr & Hk & ? & ? & ?).
  2:{ exists dir', tr. unfold main. rewrite Hk. done. }
  unfold kodi2jellyfin, open, kodi2jellyfin_body, bind.
  erewrite get_user_by_name_found by done.
  rewrite (iter_yielded _ Hr).
  match goal with |- context [for_loop _ _ [] ?s1] =>
    destruct (for_loop_ok user (library_db dir) records [] s1)
      as (s' & Hfl & Hw & Hwr & Hl); try done end.
  { eapply List.Forall_impl;
      [|apply List.Forall_and; [exact Hrs|apply parse_reader_last_played]].
    intros r [[? ?] ?]. repeat split; assumption. }
  unfold user, records in Hfl. rewrite Hfl.
  simpl in Hw, Hwr, Hl. fold records missing. unfold report, bind, lift.
  destruct missing as [|r0 missing0] eqn:Hm.
  - simpl. eexists _, _. split; [reflexivity|]. done.
  - replace (0 <? Z.of_nat (length ([] ++ r0 :: missing0))) with true
      by (symmetry; apply Z.ltb_lt; simpl; lia).
    rewrite app_nil_l, warning_lines_text.
    2:{ rewrite <- Hm. apply List.Forall_forall. intros r [_ Hin]%filter_In.
        by eapply unmatched_in_path. }
    unfold logging_warning, emit. eexists _, _. split; [reflexivity|].
    unfold warnings, written, path_lookups in *. rewrite !trace_log_app, !omap_app.
    rewrite Hw, Hwr, Hl. simpl. by rewrite !app_nil_r.
Qed.

Lemma complete_row_accepted fieldnames row r :
  complete_row fieldnames row r → KodiWatched_of_row (dict_of_row fieldnames row) = inr r.
Proof.
  intros (sp & sf & slp & lp & spc & n & ? & ? & ? & ? & ? & ? & ->).
  apply KodiWatched_of_row_inr. by exists (Some sp), (Some sf), slp, lp, spc, n.
Qed.

Lemma defective_row_rejected fieldnames row :
  defective_row fieldnames row →
  ∃ e, KodiWatched_of_row (dict_of_row fieldnames row) = inl e.
Proof.
  intros Hd. destruct (KodiWatched_of_row _) as [e|r] eqn:Hr; [by exists e|].
  exfalso. apply KodiWatched_of_row_inr in Hr
    as (sp & sf & slp & lp & spc & n & Hsp & Hsf & Hslp & Hlp & Hspc & Hn & _).
  destruct Hd as [(k & Hk & Hnin)|[Hd|[(slp' & Hd & Hf)|[Hd|(spc' & Hd & Hi)]]]];
    try congruence.
  apply (dict_of_row_None fieldnames row) in Hnin.
  repeat (apply elem_of_cons in Hk as [->|Hk]; [congruence|]).
  by apply elem_of_nil in Hk.
Qed.

Lemma parse_rows_complete fieldnames rows :
  Forall (λ row, row = [] ∨ ∃ r, complete_row fieldnames row r) rows →
  raised (parse_reader (DictReader_rows fieldnames rows)) = None
  ∧ Forall2 (complete_row fieldnames)
      (List.filter (λ row, negb (bool_decide (row = []))) rows)
      (yielded (parse_reader (DictReader_rows fieldnames rows))).
Proof.
  induction rows as [|row rows IH]; intros Hrows; simpl.
  { split; [done|constructor]. }
  apply Forall_cons_1 in Hrows as [Hrow Hrows]. specialize (IH Hrows).
  destruct row as [|c row]; simpl; [exact IH|].
  destruct Hrow as [?|[r Hr]]; [done|].
  rewrite (complete_row_accepted _ _ _ Hr). simpl.
  destruct IH as [IH1 IH2]. split; [done|by constructor].
Qed.

Lemma parse_rows_defective fieldnames pre row post e :
  Forall (λ row, row = [] ∨ ∃ r, complete_row fieldnames row r) pre →
  row ≠ [] → KodiWatched_of_row (dict_of_row fieldnames row) = inl e →
  raised (parse_reader (DictReader_rows fieldnames (pre ++ row :: post))) = Some e
  ∧ Forall2 (complete_row fieldnames)
      (List.filter (λ row, negb (bool_decide (row = []))) pre)
      (yielded (parse_reader (DictReader_rows fieldnames (pre ++ row :: post)))).
Proof.
  intros Hpre Hne He. induction pre as [|x pre IH]; simpl.
  - destruct row as [|c row]; [done|]. simpl. rewrite He. simpl. split; [done|constructor].
  - apply Forall_cons_1 in Hpre as [Hx Hpre]. specialize (IH Hpre).
    destruct x as [|c x]; simpl; [exact IH|].
    destruct Hx as [?|[r Hr]]; [done|].
    rewrite (complete_row_accepted _ _ _ Hr). simpl.
    destruct IH as [IH1 IH2]. split; [done|by constructor].
Qed.

(** C7: [parse] on a file with a header and rows.  A row without
    any field (a blank line) is passed over.  Call a row complete when it has
    a field under each of the four columns, the one under lastPlayed read by
    [fromisoformat] and the one under playCount by [int]; and defective when
    the header lacks one of the four columns, or the row has no field under
    lastPlayed or under playCount, or has one there that is not read.  When
    every row is blank or complete, the sequence ends normally with one
    record for each row that is not blank, in the order of the file, made of
    the row's four fields.  A defective row that comes after blank and
    complete rows only ends the sequence with an exception ([KeyError],
    [TypeError] or [ValueError]) after the records of the rows before it.
    The header binds each of its names in the dict of a row, to [None] when
    the row is too short to have a field for the name. *)
Theorem C7_parse_sequence fieldnames rows :
  let decode := λ row, KodiWatched_of_row (dict_of_row fieldnames row) in
  let nonblank := List.filter (λ row : list string, negb (bool_decide (row = []))) in
  (Forall (λ row, row = [] ∨ ∃ r, complete_row fieldnames row r) rows →
     raised (parse (fieldnames :: rows)) = None
     ∧ Forall2 (complete_row fieldnames) (nonblank rows)
         (yielded (parse (fieldnames :: rows))))
  ∧ (∀ pre row post,
       rows = pre ++ row :: post →
       Forall (λ row, row = [] ∨ ∃ r, complete_row fieldnames row r) pre →
       row ≠ [] → defective_row fieldnames row →
       ∃ e, raised (parse (fieldnames :: rows)) = Some e
         ∧ decode row = inl e
         ∧ (e = TypeError ∨ e = ValueError ∨ ∃ k, e = KeyError k)
         ∧ Forall2 (complete_row fieldnames) (nonblank pre)
             (yielded (parse (fieldnames :: rows))))
  ∧ (∀ row k,
       (dict_of_row fieldnames row !! k = None ↔ k ∉ fieldnames)
       ∧ (k ∈ drop (length row) fieldnames → dict_of_row fieldnames row !! k = Some None)).
Proof.
  cbv zeta. split; [|split].
  - apply parse_rows_complete.
  - intros pre row post -> Hpre Hne Hd.
    destruct (defective_row_rejected _ _ Hd) as [e He]. exists e.
    destruct (parse_rows_defective fieldnames pre row post e Hpre Hne He) as [H1 H2].
    split; [exact H1|]. split; [exact He|]. split; [|exact H2].
    by eapply KodiWatched_of_row_inl.
  - intros row k. split; [apply dict_of_row_None|apply dict_of_row_short].
Qed.

(** C8: the play count of every record that [parse] yields is the
    integer that [int] reads in the playCount field of its row, whatever its
    sign: a complete row is accepted with that integer, negative or not.  A
    record with a negative play count that the loop resolves to a key, whose
    play count and time of last play SQLite can hold, is written, UserDatas
    being there, with played = false and that negative playCount. *)
Theorem C8_play_count_of_field fieldnames rows :
  Forall (λ r, ∃ row spc,
            row ∈ rows
            ∧ dict_of_row fieldnames row !! "playCount" = Some (Some spc)
            ∧ int_of_str spc = Some (play_count r))
    (yielded (parse (fieldnames :: rows)))
  ∧ (∀ row r, complete_row fieldnames row r →
       KodiWatched_of_row (dict_of_row fieldnames row) = inr r
       ∧ ∃ spc, dict_of_row fieldnames row !! "playCount" = Some (Some spc)
                ∧ int_of_str spc = Some (play_count r))
  ∧ (∀ user r missing s p k lp t urows,
       play_count r < 0 → int64 (play_count r) →
       skip r = inr false → path r = inr p → lookup_path (library s) p = Some k →
       last_played r = Some lp → timestamp lp = inr t →
       int64 (Z.quot (Qnum t) (Z.pos (Qden t))) →
       UserDatas (library s) = Some urows →
       ∃ s', loop_body user r missing s = (inr missing, s')
         ∧ user_data_at (library s') k =
             Some {| key := k; userId := internal_id user; played := false;
                     playCount := play_count r;
                     lastPlayedDate := Z.quot (Qnum t) (Z.pos (Qden t));
                     isFavorite := false; playbackPositionTicks := 0 |}).
Proof.
  split; [|split].
  - eapply List.Forall_impl; [|apply parse_rows_origin].
    intros r (row & Hin & Hr).
    apply KodiWatched_of_row_inr in Hr
      as (sp & sf & slp & lp & spc & n & _ & _ & _ & _ & Hpc & Hn & ->).
    exists row, spc. simpl. repeat split; done.
  - intros row r Hc. split; [by apply complete_row_accepted|].
    destruct Hc as (sp & sf & slp & lp & spc & n & _ & _ & _ & _ & Hpc & Hn & ->).
    by exists spc.
  - intros user r missing s p k lp t urows Hneg Hpc Hs Hp Hl Hlp Ht Hn Hu.
    eexists. split.
    { apply (loop_body_applied user r missing s p k lp urows); try done.
      by apply (row_for_inr _ _ _ _ t). }
    unfold user_data_at, library. simpl. rewrite lookup_insert_eq.
    by replace (0 <? play_count r) with false by (symmetry; apply Z.ltb_ge; lia).
Qed.

(** C9: every record that [parse] yields has a time of last play, and no
    run ends with the [AssertionError] of the check before the upsert. *)
Theorem C9_last_played_present kodi_tsv dir name :
  Forall (λ r, is_Some (last_played r)) (yielded (parse kodi_tsv))
  ∧ is_AssertionError (kodi2jellyfin kodi_tsv dir name).1.1 = false.
Proof.
  split; [apply parse_reader_last_played|].
  unfold kodi2jellyfin, open, kodi2jellyfin_body, bind.
  match goal with |- context [get_user_by_name name ?s0] =>
    destruct (get_user_by_name name s0) as [[e|user] s1] eqn:Hg end.
  { simpl. revert Hg.
    unfold get_user_by_name, select_Users, get_jellyfin, subscript, emit, bind, ret, raise.
    simpl. destruct (Users _) as [us|]; [|by intros [= <- _]].
    destruct (List.find _ us); [discriminate|by intros [= <- _]]. }
  pose proof (for_loop_no_assertion user (parse kodi_tsv) [] s1
                (parse_reader_last_played _)) as Hf.
  destruct (for_loop user (parse kodi_tsv) [] s1) as [[e|missing] s2].
  { simpl in *. apply Hf. intros He%parse_raised.
    destruct He as [|[|[? ?]]]; discriminate. }
  unfold report, bind, lift. destruct (0 <? _); [|done].
  destruct (warning_lines warning_head missing) as [e|w] eqn:Hw; [|done].
  simpl. by rewrite (warning_lines_inl _ _ _ Hw).
Qed.

End Engine.

(** * The examples of the specification, and the statements at work *)

Ltac by_computation :=
  cbv zeta; repeat match goal with |- _ ∧ _ => split end;
  match goal with |- _ = _ => reflexivity end.

(** The sample [int]. *)
Example int_literals :
  ascii_int_of_str "3" = Some 3
  ∧ ascii_int_of_str "-1" = Some (-1)
  ∧ ascii_int_of_str " +1_000 " = Some 1000
  ∧ ascii_int_of_str "007" = Some 7
  ∧ ascii_int_of_str "1__0" = None
  ∧ ascii_int_of_str "_1" = None
  ∧ ascii_int_of_str "- 1" = None
  ∧ ascii_int_of_str "three" = None
  ∧ ascii_int_of_str "" = None.
Proof. by_computation. Qed.

Example short_row_dict :
  dict_of_row Ex.header ["/movies/"; "foo.mkv"] !! "lastPlayed" = Some None
  ∧ dict_of_row Ex.header ["/movies/"; "foo.mkv"] !! "strPath" = Some (Some "/movies/")
  ∧ dict_of_row ["strPath"; "strPath"] ["a"; "b"] !! "strPath" = Some (Some "b")
  ∧ dict_of_row Ex.header Ex.foo_row !! "title" = None.
Proof. by_computation. Qed.

(** A row too short to have a time of last play ends the sequence with a
    [TypeError], after the record of the row before it. *)
Example short_row_rejected :
  parse (H:=sample_python) [Ex.header; Ex.foo_row; ["/movies/"; "bar.mkv"]; Ex.bar_row]
  = Yield Ex.foo (Raise TypeError).
Proof. by_computation. Qed.

(** The row ("/movies/", "foo.mkv", "2023-01-01T00:00:00", "3"), with the
    path known under key1 and the user u1. *)
Example end_to_end_applied :
  kodi2jellyfin (H:=sample_python) [Ex.header; Ex.foo_row] Ex.data_dir "alice" =
    (inr tt, Ex.data_dir_after,
     [SelectUsers "alice"; SelectTypedBaseItems "/movies/foo.mkv";
      ReplaceUserDatas Ex.foo_written]).
Proof. by_computation. Qed.

(** A row of a plugin: no statement on the library, no warning. *)
Example end_to_end_skipped :
  kodi2jellyfin (H:=sample_python) [Ex.header; Ex.plugin_row] Ex.data_dir "alice" =
    (inr tt, Ex.data_dir, [SelectUsers "alice"; LoggingDebug Ex.plugin_clip]).
Proof. by_computation. Qed.

(** A row whose path the items table does not know: its path is in the
    warning and nothing is written. *)
Example end_to_end_unmatched :
  (kodi2jellyfin (H:=sample_python) [Ex.header; Ex.bar_row] Ex.data_dir "alice").1.2
    = Ex.data_dir
  ∧ warnings (kodi2jellyfin (H:=sample_python) [Ex.header; Ex.bar_row] Ex.data_dir "alice").2
    = [warning_head +:+ (newline +:+ "/movies/bar.mkv")].
Proof. by_computation. Qed.

Ltac int64_by_computation :=
  unfold int64; split; [intros Hgt; discriminate Hgt | reflexivity].

Lemma C1_witness :
  ∃ lp t, last_played Ex.foo = Some lp ∧ @timestamp sample_python lp = inr t
    ∧ ([] : list (@KodiWatched sample_python)) = []
    ∧ written (trace (loop_body Ex.alice Ex.foo [] Ex.start).2)
      = written (trace Ex.start) ++
          [{| key := "key1"; userId := "u1"; played := true; playCount := 3;
              lastPlayedDate := Z.quot (Qnum t) (Z.pos (Qden t));
              isFavorite := false; playbackPositionTicks := 0 |}]
    ∧ user_data_at (library (loop_body Ex.alice Ex.foo [] Ex.start).2) "key1"
      = Some {| key := "key1"; userId := "u1"; played := true; playCount := 3;
                lastPlayedDate := Z.quot (Qnum t) (Z.pos (Qden t));
                isFavorite := false; playbackPositionTicks := 0 |}
    ∧ (get_user_data "key1" (loop_body Ex.alice Ex.foo [] Ex.start).2).1
      = inr (Some (UserData.mk "key1" "u1" true 3 (Z.quot (Qnum t) (Z.pos (Qden t)))
                     false 0)).
Proof.
  apply (proj1 (C1_upsert_replaces_row (H:=sample_python) Ex.alice Ex.foo [] Ex.start
                  "/movies/foo.mkv" "key1" eq_refl eq_refl eq_refl)
           [] (loop_body Ex.alice Ex.foo [] Ex.start).2).
  reflexivity.
Defined.

(** The row of the end-to-end example, written over a row that was a
    favourite and half seen: the stored time is 1672531200. *)
Example upsert_replaces_favourite :
  user_data_at (library Ex.start) "key1" = Some Ex.old_row
  ∧ isFavorite Ex.old_row = true
  ∧ loop_body (H:=sample_python) Ex.alice Ex.foo [] Ex.start =
      (inr [],
       with_library
         {| TypedBaseItems := Some Ex.items;
            UserDatas := Some {[ "key1" := Ex.foo_written ]} |}
         (log (ReplaceUserDatas Ex.foo_written)
            (log (SelectTypedBaseItems "/movies/foo.mkv") Ex.start)))
  ∧ lastPlayedDate Ex.foo_written = 1672531200.
Proof. by_computation. Qed.

(** A play count of 2^63 is read by [parse], and the path of its record has
    a key, but SQLite cannot hold it: the turn of the loop raises
    [OverflowError] and the row of key1 stays what it was, a favourite and
    half seen; the run ends with the exception. *)
Lemma C1_counterexample :
  let r : @KodiWatched sample_python :=
    {| folder := Some "/movies/"; file_name := Some "foo.mkv";
       last_played := Some Ex.new_year; play_count := 9223372036854775808 |} in
  let tsv := [Ex.header;
              ["/movies/"; "foo.mkv"; "2023-01-01T00:00:00"; "9223372036854775808"]] in
  parse (H:=sample_python) tsv = Yield r StopIteration
  ∧ skip r = inr false
  ∧ path r = inr "/movies/foo.mkv"
  ∧ lookup_path (library Ex.start) "/movies/foo.mkv" = Some "key1"
  ∧ loop_body Ex.alice r [] Ex.start =
      (inl OverflowError, log (SelectTypedBaseItems "/movies/foo.mkv") Ex.start)
  ∧ user_data_at (library (loop_body Ex.alice r [] Ex.start).2) "key1" = Some Ex.old_row
  ∧ kodi2jellyfin (H:=sample_python) tsv Ex.data_dir "alice" =
      (inl OverflowError, Ex.data_dir,
       [SelectUsers "alice"; SelectTypedBaseItems "/movies/foo.mkv"]).
Proof. by_computation. Qed.

(** A time of last play on the first day of year 1: the run ends with the
    [ValueError] of [timestamp], raised inside the REPLACE. *)
Example timestamp_raises :
  kodi2jellyfin (H:=sample_python)
    [Ex.header; ["/movies/"; "foo.mkv"; "0001-01-01T00:00:00"; "3"]] Ex.data_dir "alice" =
    (inl ValueError, Ex.data_dir,
     [SelectUsers "alice"; SelectTypedBaseItems "/movies/foo.mkv"]).
Proof. by_computation. Qed.

Lemma C2_witness :
  written (kodi2jellyfin (H:=sample_python)
             [Ex.header; Ex.foo_row; Ex.bad_count_row] Ex.data_dir "alice").2
    = [Ex.foo_written]
  ∧ (kodi2jellyfin (H:=sample_python)
       [Ex.header; Ex.foo_row; Ex.bad_count_row] Ex.data_dir "alice").1.2 = Ex.data_dir.
Proof.
  split; [reflexivity|].
  apply (C2_no_partial_commit (H:=sample_python)
           [Ex.header; Ex.foo_row; Ex.bad_count_row] Ex.data_dir "alice" ValueError _
           [SelectUsers "alice"; SelectTypedBaseItems "/movies/foo.mkv";
            ReplaceUserDatas Ex.foo_written]).
  reflexivity.
Defined.

Lemma C3_witness :
  loop_body (H:=sample_python) Ex.alice Ex.plugin_clip [] Ex.start
    = (inr [], log (LoggingDebug Ex.plugin_clip) Ex.start)
  ∧ jellyfin_data (log (LoggingDebug Ex.plugin_clip) Ex.start) = jellyfin_data Ex.start
  ∧ path_lookups (trace (log (LoggingDebug Ex.plugin_clip) Ex.start))
    = path_lookups (trace Ex.start)
  ∧ written (trace (log (LoggingDebug Ex.plugin_clip) Ex.start))
    = written (trace Ex.start).
Proof.
  apply (C3_skip_before_store_access (H:=sample_python) Ex.alice Ex.plugin_clip []
           Ex.start "plugin://video/" "clip"); [reflexivity|reflexivity|].
  right. reflexivity.
Defined.

(** A record of a plugin without a file name, as [parse] makes one of a
    short row under a header that names strFileName last: the turn of the
    loop raises [TypeError] where it builds the path, and so does the run. *)
Lemma C3_counterexample :
  let r : @KodiWatched sample_python :=
    {| folder := Some "plugin://video/"; file_name := None;
       last_played := Some Ex.new_year; play_count := 2 |} in
  let tsv := [["lastPlayed"; "playCount"; "strPath"; "strFileName"];
              ["2023-01-01T00:00:00"; "2"; "plugin://video/"]] in
  folder r = Some "plugin://video/"
  ∧ startswith "plugin://video/" "plugin://" = true
  ∧ loop_body Ex.alice r [] Ex.start = (inl TypeError, Ex.start)
  ∧ parse (H:=sample_python) tsv = Yield r StopIteration
  ∧ kodi2jellyfin (H:=sample_python) tsv Ex.data_dir "alice" =
      (inl TypeError, Ex.data_dir, [SelectUsers "alice"]).
Proof. by_computation. Qed.

Lemma C4_witness :
  let tsv := [Ex.header; Ex.bar_row; Ex.foo_row; Ex.plugin_row; Ex.baz_row; Ex.root_row] in
  let records := yielded (parse (H:=sample_python) tsv) in
  let missing := List.filter (unmatched_in (library_db Ex.data_dir)) records in
  (∀ r p batch (s : @process sample_python),
     skip r = inr false → path r = inr p →
     is_Some (TypedBaseItems (library s)) → lookup_path (library s) p = None →
     loop_body Ex.alice r batch s = (inr (batch ++ [r]), log (SelectTypedBaseItems p) s))
  ∧ ∃ dir' (tr : list (@event sample_python)),
      kodi2jellyfin tsv Ex.data_dir "alice" = (inr tt, dir', tr)
      ∧ main tsv Ex.data_dir "alice" = (0, dir', tr)
      ∧ warnings tr = match missing with [] => [] | _ :: _ => [warning_text missing] end
      ∧ written tr = omap (applied_row Ex.alice (library_db Ex.data_dir)) records
      ∧ Forall (λ r, applied_row Ex.alice (library_db Ex.data_dir) r = None) missing
      ∧ path_lookups tr = omap looked_up records.
Proof.
  apply (C4_unmatched_reported (H:=sample_python)
           [Ex.header; Ex.bar_row; Ex.foo_row; Ex.plugin_row; Ex.baz_row; Ex.root_row]
           Ex.data_dir "alice" [ {| InternalId := "u1"; Username := "alice" |} ]
           {| InternalId := "u1"; Username := "alice" |}).
  - reflexivity.
  - reflexivity.
  - simpl. eauto.
  - simpl. eauto.
  - reflexivity.
  - match goal with |- Forall _ ?l =>
      let v := eval vm_compute in l in change l with v end.
    repeat constructor; simpl; eauto.
  - match goal with |- Forall _ ?l =>
      let v := eval vm_compute in l in change l with v end.
    repeat (apply List.Forall_cons;
            [intros _; split; [int64_by_computation|]; intros lp [= <-];
             eexists; split; [reflexivity|int64_by_computation]|]).
    apply List.Forall_nil.
Defined.

(** A run over five rows, computed: the two missing records do not stop the
    loop, the record between them is written, and the warning is one. *)
Example end_to_end_mixed :
  let run := kodi2jellyfin (H:=sample_python)
               [Ex.header; Ex.bar_row; Ex.foo_row; Ex.plugin_row; Ex.baz_row; Ex.root_row]
               Ex.data_dir "alice" in
  run.1 = (inr tt, Ex.data_dir_after)
  ∧ written run.2 = [Ex.foo_written]
  ∧ path_lookups run.2 = ["/movies/bar.mkv"; "/movies/foo.mkv"; "/shows/baz.mkv"]
  ∧ warnings run.2 =
      [warning_head +:+ (newline +:+ "/movies/bar.mkv") +:+ (newline +:+ "/shows/baz.mkv")].
Proof. by_computation. Qed.

Lemma C6_witness :
  (∀ s : @process sample_python,
     current (_jellyfin (jellyfin_data s)) = jellyfin_db Ex.data_dir →
     get_user_by_name "bob" s = (inl TypeError, log (SelectUsers "bob") s))
  ∧ kodi2jellyfin (H:=sample_python) [Ex.header; Ex.foo_row] Ex.data_dir "bob"
    = (inl TypeError, Ex.data_dir, [SelectUsers "bob"])
  ∧ main (H:=sample_python) [Ex.header; Ex.foo_row] Ex.data_dir "bob"
    = (1, Ex.data_dir, [SelectUsers "bob"]).
Proof.
  apply (C6_user_not_found (H:=sample_python) [Ex.header; Ex.foo_row] Ex.data_dir "bob"
           [ {| InternalId := "u1"; Username := "alice" |} ]).
  - reflexivity.
  - intros row ->%list_elem_of_singleton. simpl. discriminate.
Defined.

(** A row without any field is dropped without a word: of the two rows
    after the header, one gives a record. *)
Lemma C7_counterexample :
  let tsv := [Ex.header; []; Ex.foo_row] in
  parse (H:=sample_python) tsv = Yield Ex.foo StopIteration
  ∧ raised (parse (H:=sample_python) tsv) = None
  ∧ length (yielded (parse (H:=sample_python) tsv)) = 1%nat
  ∧ length (tail tsv) = 2%nat.
Proof. by_computation. Qed.

(** A play count of -1 is read as it is, and written as it is. *)
Lemma C8_counterexample :
  parse (H:=sample_python) [Ex.header; Ex.negative_row]
  = Yield {| folder := Some "/movies/"; file_name := Some "foo.mkv";
             last_played := Some Ex.new_year; play_count := -1 |} StopIteration
  ∧ play_count <$> yielded (parse (H:=sample_python) [Ex.header; Ex.negative_row]) = [-1]
  ∧ user_data_at
      (library_db (kodi2jellyfin (H:=sample_python) [Ex.header; Ex.negative_row]
                     Ex.data_dir "alice").1.2) "key1"
    = Some {| key := "key1"; userId := "u1"; played := false; playCount := -1;
              lastPlayedDate := 1672531200; isFavorite := false;
              playbackPositionTicks := 0 |}.
Proof. by_computation. Qed.

(** * Further properties of the script *)

Section Further.
Context `{PythonLib}.
Implicit Types (s : process) (r : KodiWatched) (user : JellyfinUser).

Lemma find_first {A : Type} (f : A → bool) (l : list A) x :
  List.find f l = Some x →
  ∃ pre post, l = pre ++ x :: post ∧ f x = true ∧ ∀ y, y ∈ pre → f y = false.
Proof.
  induction l as [|a l IH]; simpl; [discriminate|].
  destruct (f a) eqn:Hfa.
  - intros [= ->]. exists [], l. repeat split; [done|]. by intros y ?%elem_of_nil.
  - intros (pre & post & -> & Hx & Hpre)%IH. exists (a :: pre), post.
    repeat split; [done|]. intros y [->|?]%elem_of_cons; auto.
Qed.

Lemma find_none_all {A : Type} (f : A → bool) (l : list A) :
  List.find f l = None → ∀ y, y ∈ l → f y = false.
Proof.
  intros Hf y Hy%list_elem_of_In. by apply (find_none f l Hf).
Qed.

(** ** [adapt_datetime_epoch] *)

(** X1: the adapter stores the time stamp cut towards zero: where
    [timestamp] gives a number of seconds, the stored integer is that number
    itself when it is whole, and otherwise the nearest whole number on the
    side of zero, less than one second away; where [timestamp] raises, the
    adapter raises the same exception. *)
Theorem adapt_datetime_epoch_truncates (val : datetime) :
  match timestamp val with
  | inr t =>
    ∃ n, adapt_datetime_epoch val = inr n
      ∧ (0 <= t → inject_Z n <= t ∧ t < inject_Z n + 1)%Q
      ∧ (t <= 0 → inject_Z n - 1 < t ∧ t <= inject_Z n)%Q
      ∧ (∀ k : Z, t == inject_Z k → n = k)%Q
  | inl e => adapt_datetime_epoch val = inl (exn_of_timestamp_error e)
  end.
Proof.
  unfold adapt_datetime_epoch, int_of_float.
  destruct (timestamp val) as [e|[a d]]; [done|]. eexists. split; [reflexivity|]. simpl.
  pose proof (Z.quot_rem' a (Z.pos d)) as Hqr.
  assert (0 < Z.pos d) as Hd by lia.
  unfold Qle, Qlt, Qeq. simpl.
  set (q := Z.quot a (Z.pos d)) in *. set (m := Z.rem a (Z.pos d)) in *.
  split; [|split].
  - intros Ha. assert (0 ≤ a) as Ha' by lia.
    pose proof (Z.rem_bound_pos a (Z.pos d) Ha' Hd) as Hm. fold m in Hm. lia.
  - intros Ha. assert (a ≤ 0) as Ha' by lia.
    pose proof (Z.rem_bound_pos_neg a (Z.pos d) Hd Ha') as Hm. fold m in Hm. lia.
  - intros k Hk. rewrite Z.mul_1_r in Hk. unfold q. rewrite Hk. apply Z.quot_mul. lia.
Qed.

(** ** [csv.DictReader] and [parse] *)

Lemma foldl_insert_notin {V W : Type} (f : V → W) (l : list (string * V)) :
  ∀ (d : gmap string W) k,
  k ∉ l.*1 → foldl (λ d kv, <[kv.1 := f kv.2]> d) d l !! k = d !! k.
Proof.
  induction l as [|[a v] l IH]; intros d k Hk; simpl; [done|].
  apply not_elem_of_cons in Hk as [Hne Hk]. rewrite IH by done.
  by apply lookup_insert_ne.
Qed.

Lemma foldl_insert_in {V W : Type} (f : V → W) (l : list (string * V)) :
  ∀ (d : gmap string W) k v,
  NoDup l.*1 → (k, v) ∈ l → foldl (λ d kv, <[kv.1 := f kv.2]> d) d l !! k = Some (f v).
Proof.
  induction l as [|[a w] l IH]; intros d k v Hnd Hin; simpl.
  { by apply elem_of_nil in Hin. }
  pose proof (NoDup_cons_1_1 _ _ Hnd) as Ha. apply NoDup_cons_1_2 in Hnd.
  apply elem_of_cons in Hin as [[= -> ->]|Hin].
  - rewrite foldl_insert_notin by done. apply lookup_insert_eq.
  - by apply IH.
Qed.

Lemma zip_longer {A B : Type} (l : list A) : ∀ (k k' : list B),
  (length l ≤ length k)%nat → zip l (k ++ k') = zip l k.
Proof.
  induction l as [|a l IH]; intros [|b k] k' Hlen; simpl in *; try done; try lia.
  f_equal. apply IH. lia.
Qed.

Lemma zip_snoc {A B : Type} (l : list A) : ∀ (k : list B) a b,
  length k = length l → zip (l ++ [a]) (k ++ [b]) = zip l k ++ [(a, b)].
Proof.
  induction l as [|x l IH]; intros [|y k] a b Hlen; simpl in *; try done.
  f_equal. apply IH. lia.
Qed.

(** The dict of a row that has a field for every name of the header. *)
Lemma dict_of_row_full fieldnames row :
  (length fieldnames ≤ length row)%nat →
  dict_of_row fieldnames row =
    foldl (λ d kv, <[kv.1 := Some kv.2]> d) ∅ (zip fieldnames row).
Proof.
  intros Hlen. unfold dict_of_row. by rewrite drop_ge.
Qed.

Lemma rejected_without_column fieldnames row k :
  k ∈ ["strPath"; "strFileName"; "lastPlayed"; "playCount"] → k ∉ fieldnames →
  ∃ e, KodiWatched_of_row (dict_of_row fieldnames row) = inl e.
Proof.
  intros Hk Hn. apply (dict_of_row_None fieldnames row) in Hn.
  destruct (KodiWatched_of_row _) as [e|r] eqn:Hd; [eauto|].
  apply KodiWatched_of_row_inr in Hd
    as (sp & sf & slp & lp & spc & n & H1 & H2 & H3 & _ & H4 & _).
  set_unfold in Hk. destruct Hk as [->|[->|[->|[->|[]]]]]; congruence.
Qed.

(** X2: a file without data rows gives no record and no error, whatever its
    header is: an empty file, a header alone, or a header followed only by
    rows without fields. *)
Theorem parse_no_data_rows fieldnames rows :
  Forall (λ row, row = []) rows →
  parse [] = StopIteration ∧ parse (fieldnames :: rows) = StopIteration.
Proof.
  intros Hrows. split; [done|]. unfold parse. simpl.
  induction Hrows as [|row rows -> _ IH]; simpl; done.
Qed.

(** X3: under a header that lacks one of the four columns, [parse] yields
    no record at all: the first row that has a field ends the sequence with
    an exception, which is [KeyError "strPath"] when that column is the one
    that lacks. *)
Theorem parse_header_without_column fieldnames rows k :
  k ∈ ["strPath"; "strFileName"; "lastPlayed"; "playCount"] → k ∉ fieldnames →
  yielded (parse (fieldnames :: rows)) = []
  ∧ (Exists (λ row, row ≠ []) rows → is_Some (raised (parse (fieldnames :: rows))))
  ∧ (Exists (λ row, row ≠ []) rows → "strPath" ∉ fieldnames →
     raised (parse (fieldnames :: rows)) = Some (KeyError "strPath")).
Proof.
  intros Hk Hn. unfold parse. simpl.
  induction rows as [|row rows (IH1 & IH2 & IH3)]; simpl.
  { repeat split; try done; by intros ?%Exists_nil. }
  destruct row as [|c row]; simpl.
  { repeat split; [done|intros [?|?]%Exists_cons; [done|by apply IH2]|].
    intros [?|?]%Exists_cons ?; [done|by apply IH3]. }
  destruct (rejected_without_column fieldnames (c :: row) k Hk Hn) as [e He].
  rewrite He. simpl. repeat split; [eauto|]. intros _ Hp.
  apply (dict_of_row_None fieldnames (c :: row)) in Hp. revert He.
  unfold KodiWatched_of_row, getitem, bind_exn. rewrite Hp. by intros [= <-].
Qed.

(** X4: the columns are found by name, not by place: when the names of the
    header are distinct and the row has a field for each, moving the columns
    around, each name with its field, changes neither the dict of the row
    nor what [parse] makes of it. *)
Theorem dict_of_row_column_order fieldnames row fieldnames' row' :
  NoDup fieldnames → length row = length fieldnames →
  length row' = length fieldnames' →
  zip fieldnames row ≡ₚ zip fieldnames' row' →
  dict_of_row fieldnames row = dict_of_row fieldnames' row'
  ∧ KodiWatched_of_row (dict_of_row fieldnames row)
    = KodiWatched_of_row (dict_of_row fieldnames' row').
Proof.
  intros Hnd Hl Hl' Hp.
  assert (dict_of_row fieldnames row = dict_of_row fieldnames' row') as E;
    [|by rewrite E].
  rewrite !dict_of_row_full by lia.
  assert ((zip fieldnames row).*1 = fieldnames) as E1 by (apply fst_zip; lia).
  assert ((zip fieldnames' row').*1 = fieldnames') as E2 by (apply fst_zip; lia).
  assert (NoDup (zip fieldnames row).*1) as Hnd1 by by rewrite E1.
  assert (NoDup (zip fieldnames' row').*1) as Hnd2 by by rewrite <- Hp.
  apply map_eq. intros k.
  destruct (decide (k ∈ (zip fieldnames row).*1)) as [Hin|Hnin].
  - apply list_elem_of_fmap in Hin as ([k' v] & -> & Hin). simpl.
    rewrite (foldl_insert_in Some _ _ _ v Hnd1 Hin).
    rewrite Hp in Hin. by rewrite (foldl_insert_in Some _ _ _ v Hnd2 Hin).
  - rewrite foldl_insert_notin by done. rewrite Hp in Hnin.
    by rewrite foldl_insert_notin.
Qed.

(** X5: what the header does not name is not read.  The fields that a row
    has beyond the names of the header change nothing; and a further column
    under any other name than the four, added with its field at the end of a
    row that has a field for every name, does not change the record. *)
Theorem parse_ignores_extras fieldnames row :
  (∀ more, (length fieldnames ≤ length row)%nat →
     KodiWatched_of_row (dict_of_row fieldnames (row ++ more))
     = KodiWatched_of_row (dict_of_row fieldnames row))
  ∧ (∀ name field,
       length row = length fieldnames →
       name ∉ ["strPath"; "strFileName"; "lastPlayed"; "playCount"] →
       KodiWatched_of_row (dict_of_row (fieldnames ++ [name]) (row ++ [field]))
       = KodiWatched_of_row (dict_of_row fieldnames row)).
Proof.
  split.
  - intros more Hlen. rewrite !dict_of_row_full by (rewrite ?length_app; lia).
    by rewrite zip_longer.
  - intros name field Hlen Hname.
    rewrite !dict_of_row_full by (rewrite ?length_app; simpl; lia).
    rewrite zip_snoc, foldl_app by done. simpl.
    set (d := foldl _ ∅ (zip fieldnames row)).
    unfold KodiWatched_of_row, getitem.
    rewrite !lookup_insert_ne; [done|..]; intros ->; apply Hname; set_solver.
Qed.

(** ** [_dict_factory] *)

(** X6: in the dict the row factory makes of a row, each column whose name
    occurs once is found under its name with the value the row has at its
    place, and a name that is not a column is not a key. *)
Theorem dict_factory_lookup {V : Type} (description : list column) (row : list V) :
  NoDup (column_name <$> description) →
  (∀ i c v, description !! i = Some c → row !! i = Some v →
     _dict_factory description row !! column_name c = Some v)
  ∧ (∀ k, k ∉ column_name <$> description → _dict_factory description row !! k = None).
Proof.
  intros Hnd. unfold _dict_factory. cbv zeta.
  assert ((zip (column_name <$> description) row).*1
          `sublist_of` column_name <$> description) as Hsub.
  { rewrite fst_zip_take. apply sublist_take. }
  split.
  - intros i c v Hc Hv.
    apply (foldl_insert_in (λ x, x) _ _ _ v).
    + by eapply sublist_NoDup.
    + apply list_elem_of_lookup. exists i. apply lookup_zip_Some.
      split; [|done]. by rewrite list_lookup_fmap, Hc.
  - intros k Hk. rewrite (foldl_insert_notin (λ x, x)); [apply lookup_empty|].
    intros Hin. apply Hk. by apply (sublist_subseteq _ _ Hsub).
Qed.

(** ** The operations of [JellyfinData] *)

Lemma get_user_data_key_for_path_run p s :
  get_user_data_key_for_path p s =
    (match TypedBaseItems (library s) with
     | Some _ => inr (lookup_path (library s) p)
     | None => inl OperationalError
     end, log (SelectTypedBaseItems p) s).
Proof.
  unfold get_user_data_key_for_path, select_TypedBaseItems, get_library, emit, bind,
    ret, raise, lookup_path, library. simpl.
  destruct (TypedBaseItems _) as [items|]; [|done]. by destruct (List.find _ items).
Qed.

Lemma get_user_data_run k s :
  get_user_data k s =
    (match UserDatas (library s) with
     | Some rows =>
       inr ((λ row, UserData.mk (key row) (userId row) (played row) (playCount row)
                      (lastPlayedDate row) (isFavorite row) (playbackPositionTicks row))
            <$> rows !! k)
     | None => inl OperationalError
     end, log (SelectUserDatas k) s).
Proof.
  unfold get_user_data, select_UserDatas, get_library, emit, bind, ret, raise, library.
  simpl. destruct (UserDatas _) as [rows|]; [|done]. by destruct (rows !! k).
Qed.

(** X7: [get_user_by_name] changes nothing and sends one SELECT.  When it
    returns a user, the user has the name that was asked for and the internal
    id of the first row of Users with that name; it raises [TypeError] exactly
    when the table has no row with the name, and [OperationalError] exactly
    when there is no table. *)
Theorem get_user_by_name_outcomes name s :
  (get_user_by_name name s).2 = log (SelectUsers name) s
  ∧ (∀ user, (get_user_by_name name s).1 = inr user →
       username user = name
       ∧ ∃ pre row post,
           Users (current (_jellyfin (jellyfin_data s))) = Some (pre ++ row :: post)
           ∧ Username row = name ∧ internal_id user = InternalId row
           ∧ ∀ x, x ∈ pre → Username x ≠ name)
  ∧ ((get_user_by_name name s).1 = inl TypeError ↔
       ∃ users, Users (current (_jellyfin (jellyfin_data s))) = Some users
                ∧ ∀ x, x ∈ users → Username x ≠ name)
  ∧ ((get_user_by_name name s).1 = inl OperationalError ↔
       Users (current (_jellyfin (jellyfin_data s))) = None)
  ∧ (∀ e, (get_user_by_name name s).1 = inl e → e = TypeError ∨ e = OperationalError).
Proof.
  unfold get_user_by_name, select_Users, get_jellyfin, subscript, emit, bind, ret, raise.
  simpl. destruct (Users _) as [users|]; simpl.
  2:{ split; [done|]. split; [done|]. split; [|split; [done|]].
      - split; [done|]. by intros (? & ? & ?).
      - intros e [= <-]. by right. }
  destruct (List.find _ users) as [row|] eqn:Hf; simpl.
  - apply find_first in Hf as (pre & post & -> & Hrow & Hpre).
    apply bool_decide_eq_true in Hrow.
    split; [done|]. split; [|split; [|split; [done|done]]].
    + intros user [= <-]. split; [done|]. exists pre, row, post.
      repeat split; try done.
      intros x Hx. specialize (Hpre x Hx). by apply bool_decide_eq_false in Hpre.
    + split; [done|]. intros (users & [= <-] & Hn). destruct (Hn row); [|done].
      apply elem_of_app. right. by left.
  - pose proof (find_none_all _ _ Hf) as Hn.
    split; [done|]. split; [done|]. split; [|split; [done|]].
    + split; [|done]. intros _. exists users. split; [done|]. intros x Hx.
      specialize (Hn x Hx). by apply bool_decide_eq_false in Hn.
    + intros e [= <-]. by left.
Qed.

(** X8: [get_user_data_key_for_path] changes nothing and sends one SELECT.
    It returns the key of the first row of the items table with the path,
    [None] exactly when the table has no row with the path, and raises
    ([OperationalError]) exactly when there is no table. *)
Theorem get_user_data_key_for_path_outcomes p s :
  (get_user_data_key_for_path p s).2 = log (SelectTypedBaseItems p) s
  ∧ (∀ k, (get_user_data_key_for_path p s).1 = inr (Some k) →
       ∃ pre row post,
         TypedBaseItems (library s) = Some (pre ++ row :: post)
         ∧ Path row = p ∧ UserDataKey row = k ∧ ∀ x, x ∈ pre → Path x ≠ p)
  ∧ ((get_user_data_key_for_path p s).1 = inr None ↔
       ∃ items, TypedBaseItems (library s) = Some items ∧ ∀ x, x ∈ items → Path x ≠ p)
  ∧ (∀ e, (get_user_data_key_for_path p s).1 = inl e ↔
       e = OperationalError ∧ TypedBaseItems (library s) = None).
Proof.
  rewrite get_user_data_key_for_path_run. simpl. unfold lookup_path.
  destruct (TypedBaseItems (library s)) as [items|]; simpl.
  2:{ split; [done|]. split; [done|]. split.
      - split; [done|]. by intros (? & ? & ?).
      - intros e. split; [by intros [= <-]|by intros [-> _]]. }
  destruct (List.find _ items) as [row|] eqn:Hf; simpl.
  - apply find_first in Hf as (pre & post & -> & Hrow & Hpre).
    apply bool_decide_eq_true in Hrow.
    split; [done|]. split; [|split].
    + intros k [= <-]. exists pre, row, post. repeat split; try done.
      intros x Hx. specialize (Hpre x Hx). by apply bool_decide_eq_false in Hpre.
    + split; [done|]. intros (items & [= <-] & Hn). destruct (Hn row); [|done].
      apply elem_of_app. right. by left.
    + intros e. split; [done|by intros [_ ?]].
  - pose proof (find_none_all _ _ Hf) as Hn.
    split; [done|]. split; [done|]. split.
    + split; [|done]. intros _. exists items. split; [done|]. intros x Hx.
      specialize (Hn x Hx). by apply bool_decide_eq_false in Hn.
    + intros e. split; [done|by intros [_ ?]].
Qed.

(** X9: what [upsert_user_data] writes, [get_user_data] reads.  With a
    play count and a time of last play that SQLite can hold, the upsert
    returns, the key then gives back the values that were written (the time
    as whole seconds, cut towards zero), with isFavorite false and no
    playback position, and every other key gives back what it gave before.
    With a play count outside the signed 64-bit integers, a time for which
    [timestamp] raises, or one whose seconds are outside these integers, the
    upsert raises and changes nothing. *)
Theorem upsert_then_get k uid pl pc lp s rows :
  UserDatas (library s) = Some rows →
  (∀ t, int64 pc → timestamp lp = inr t → int64 (Z.quot (Qnum t) (Z.pos (Qden t))) →
     (upsert_user_data k uid pl pc lp s).1 = inr tt
     ∧ ∀ k', (get_user_data k' (upsert_user_data k uid pl pc lp s).2).1 =
             if decide (k' = k)
             then inr (Some (UserData.mk k uid pl pc (Z.quot (Qnum t) (Z.pos (Qden t)))
                               false 0))
             else (get_user_data k' s).1)
  ∧ (¬ int64 pc → upsert_user_data k uid pl pc lp s = (inl OverflowError, s))
  ∧ (∀ e, int64 pc → timestamp lp = inl e →
       upsert_user_data k uid pl pc lp s = (inl (exn_of_timestamp_error e), s))
  ∧ (∀ t, int64 pc → timestamp lp = inr t → ¬ int64 (Z.quot (Qnum t) (Z.pos (Qden t))) →
       upsert_user_data k uid pl pc lp s = (inl OverflowError, s)).
Proof.
  intros Hu. split; [|split; [|split]].
  - intros t Hpc Ht Hn.
    rewrite (upsert_user_data_some _ _ _ _ _ _ _ _ Hu (bind_UserDatas_ok _ _ _ _ _ _ Hpc Ht Hn)).
    split; [done|].
    intros k'. rewrite !get_user_data_run. simpl. unfold library. simpl.
    unfold library in Hu. rewrite Hu. destruct (decide (k' = k)) as [->|Hne].
    + by rewrite lookup_insert_eq.
    + by rewrite lookup_insert_ne.
  - intros Hpc. apply (upsert_user_data_unbound _ _ _ _ _ _ rows); [done|].
    by apply bind_UserDatas_overflow.
  - intros e Hpc Ht. apply (upsert_user_data_unbound _ _ _ _ _ _ rows); [done|].
    by apply bind_UserDatas_timestamp_error.
  - intros t Hpc Ht Hn. apply (upsert_user_data_unbound _ _ _ _ _ _ rows); [done|].
    by apply (bind_UserDatas_timestamp_overflow _ _ _ _ _ t).
Qed.

(** X10: of two upserts under one key the later one alone counts when its
    values are ones that SQLite can hold, and otherwise the earlier one
    alone; two upserts under different keys can be done in either order. *)
Theorem upsert_compose k1 uid1 pl1 pc1 lp1 k2 uid2 pl2 pc2 lp2 s :
  (bindable pc2 lp2 →
   jellyfin_data
     (upsert_user_data k1 uid2 pl2 pc2 lp2 (upsert_user_data k1 uid1 pl1 pc1 lp1 s).2).2
   = jellyfin_data (upsert_user_data k1 uid2 pl2 pc2 lp2 s).2)
  ∧ (¬ bindable pc2 lp2 →
     jellyfin_data
       (upsert_user_data k1 uid2 pl2 pc2 lp2 (upsert_user_data k1 uid1 pl1 pc1 lp1 s).2).2
     = jellyfin_data (upsert_user_data k1 uid1 pl1 pc1 lp1 s).2)
  ∧ (k1 ≠ k2 →
     jellyfin_data
       (upsert_user_data k2 uid2 pl2 pc2 lp2 (upsert_user_data k1 uid1 pl1 pc1 lp1 s).2).2
     = jellyfin_data
         (upsert_user_data k1 uid1 pl1 pc1 lp1 (upsert_user_data k2 uid2 pl2 pc2 lp2 s).2).2).
Proof.
  assert (∀ k uid pl pc lp s', UserDatas (library s') = None →
            jellyfin_data (upsert_user_data k uid pl pc lp s').2 = jellyfin_data s'
            ∧ UserDatas (library (upsert_user_data k uid pl pc lp s').2) = None) as Hnone.
  { intros k uid pl pc lp s' Hu. by rewrite upsert_user_data_none. }
  destruct (UserDatas (library s)) as [rows|] eqn:Hu.
  2:{ split; [|split]; intros _.
      - destruct (Hnone k1 uid1 pl1 pc1 lp1 s Hu) as [E1 U1].
        destruct (Hnone k1 uid2 pl2 pc2 lp2 _ U1) as [E2 _].
        destruct (Hnone k1 uid2 pl2 pc2 lp2 s Hu) as [E3 _]. congruence.
      - destruct (Hnone k1 uid1 pl1 pc1 lp1 s Hu) as [E1 U1].
        by destruct (Hnone k1 uid2 pl2 pc2 lp2 _ U1) as [E2 _].
      - destruct (Hnone k1 uid1 pl1 pc1 lp1 s Hu) as [E1 U1].
        destruct (Hnone k2 uid2 pl2 pc2 lp2 _ U1) as [E2 _].
        destruct (Hnone k2 uid2 pl2 pc2 lp2 s Hu) as [E3 U3].
        destruct (Hnone k1 uid1 pl1 pc1 lp1 _ U3) as [E4 _]. congruence. }
  split; [|split].
  - intros (Hpc & t & Ht & Hn).
    pose proof (bind_UserDatas_ok k1 uid2 pl2 pc2 lp2 t Hpc Ht Hn) as Hb2.
    rewrite (upsert_user_data_some _ _ _ _ _ s rows _ Hu Hb2). cbn [snd].
    destruct (bind_UserDatas k1 uid1 pl1 pc1 lp1 false 0) as [e|row1] eqn:Hb1.
    + rewrite (upsert_user_data_unbound _ _ _ _ _ s rows e Hu Hb1). cbn [snd].
      by rewrite (upsert_user_data_some _ _ _ _ _ s rows _ Hu Hb2).
    + rewrite (upsert_user_data_some _ _ _ _ _ s rows _ Hu Hb1). cbn [snd].
      erewrite upsert_user_data_some; [|reflexivity|exact Hb2]. simpl.
      by rewrite insert_insert_eq.
  - intros Hnb.
    destruct (bind_UserDatas k1 uid2 pl2 pc2 lp2 false 0) as [e|row2] eqn:Hb2.
    2:{ destruct Hnb. by eapply bind_UserDatas_bindable. }
    destruct (bind_UserDatas k1 uid1 pl1 pc1 lp1 false 0) as [e1|row1] eqn:Hb1.
    + rewrite (upsert_user_data_unbound _ _ _ _ _ s rows e1 Hu Hb1). cbn [snd].
      by rewrite (upsert_user_data_unbound _ _ _ _ _ s rows e Hu Hb2).
    + rewrite (upsert_user_data_some _ _ _ _ _ s rows _ Hu Hb1). cbn [snd].
      by erewrite upsert_user_data_unbound; [|reflexivity|exact Hb2].
  - intros Hne.
    destruct (bind_UserDatas k1 uid1 pl1 pc1 lp1 false 0) as [e1|row1] eqn:Hb1;
      destruct (bind_UserDatas k2 uid2 pl2 pc2 lp2 false 0) as [e2|row2] eqn:Hb2.
    + rewrite (upsert_user_data_unbound _ _ _ _ _ s rows e1 Hu Hb1),
        (upsert_user_data_unbound _ _ _ _ _ s rows e2 Hu Hb2). cbn [snd].
      by rewrite (upsert_user_data_unbound _ _ _ _ _ s rows e1 Hu Hb1),
        (upsert_user_data_unbound _ _ _ _ _ s rows e2 Hu Hb2).
    + rewrite (upsert_user_data_unbound _ _ _ _ _ s rows e1 Hu Hb1),
        (upsert_user_data_some _ _ _ _ _ s rows _ Hu Hb2). cbn [snd].
      rewrite (upsert_user_data_some _ _ _ _ _ s rows _ Hu Hb2). cbn [snd].
      by erewrite upsert_user_data_unbound; [|reflexivity|exact Hb1].
    + rewrite (upsert_user_data_some _ _ _ _ _ s rows _ Hu Hb1),
        (upsert_user_data_unbound _ _ _ _ _ s rows e2 Hu Hb2). cbn [snd].
      rewrite (upsert_user_data_some _ _ _ _ _ s rows _ Hu Hb1). cbn [snd].
      by erewrite upsert_user_data_unbound; [|reflexivity|exact Hb2].
    + rewrite (upsert_user_data_some _ _ _ _ _ s rows _ Hu Hb1),
        (upsert_user_data_some _ _ _ _ _ s rows _ Hu Hb2). cbn [snd].
      erewrite upsert_user_data_some; [|reflexivity|exact Hb2].
      erewrite (upsert_user_data_some k1); [|reflexivity|exact Hb1]. simpl.
      by rewrite insert_insert_ne.
Qed.

(** X11: the lookups, the debug message and the final report change no
    connection: only [upsert_user_data] writes. *)
Theorem read_only_operations name p k r missing s :
  jellyfin_data (get_user_by_name name s).2 = jellyfin_data s
  ∧ jellyfin_data (get_user_data_key_for_path p s).2 = jellyfin_data s
  ∧ jellyfin_data (get_user_data k s).2 = jellyfin_data s
  ∧ jellyfin_data (logging_debug r s).2 = jellyfin_data s
  ∧ jellyfin_data (report missing s).2 = jellyfin_data s.
Proof.
  split; [apply get_user_by_name_data|].
  split; [by rewrite get_user_data_key_for_path_run|].
  split; [by rewrite get_user_data_run|].
  split; [done|apply report_data].
Qed.

(** X12: [JellyfinData.open] makes the writes of its body last when the
    body returns and drops them when it raises.  With values that SQLite can
    hold, a row upserted in one [with] statement is read by [get_user_data]
    in the next one, which leaves the directory as it found it; inside one
    [with] statement the row is read before it is committed; and when the
    body raises after the upsert the directory is as it was.  With other
    values the upsert raises and the directory is as it was. *)
Theorem open_commits_or_rolls_back dir k uid pl pc lp rows e :
  UserDatas (library_db dir) = Some rows →
  (∀ t, int64 pc → timestamp lp = inr t → int64 (Z.quot (Qnum t) (Z.pos (Qden t))) →
     let written := UserData.mk k uid pl pc (Z.quot (Qnum t) (Z.pos (Qden t))) false 0 in
     let first := open dir (upsert_user_data k uid pl pc lp) in
     let second := open first.1.2 (get_user_data k) in
     first.1.1 = inr tt
     ∧ second.1.1 = inr (Some written)
     ∧ second.1.2 = first.1.2
     ∧ (open dir (upsert_user_data k uid pl pc lp;;; get_user_data k)).1.1
       = inr (Some written)
     ∧ (open dir (upsert_user_data k uid pl pc lp;;; (raise e : M unit))).1
       = (inl e, dir))
  ∧ (¬ bindable pc lp →
     ∃ e', (open dir (upsert_user_data k uid pl pc lp)).1 = (inl e', dir)
           ∧ (e' = OverflowError ∨ e' = ValueError ∨ e' = OSError)).
Proof.
  intros Hu. split.
  - intros t Hpc Ht Hn. cbv zeta. unfold open.
    pose proof (bind_UserDatas_ok k uid pl pc lp t Hpc Ht Hn) as Hb.
    match goal with |- context [upsert_user_data _ _ _ _ _ ?s0] =>
      rewrite !(upsert_user_data_some k uid pl pc lp s0 rows _ Hu Hb) end.
    unfold bind.
    match goal with |- context [upsert_user_data _ _ _ _ _ ?s0] =>
      rewrite !(upsert_user_data_some k uid pl pc lp s0 rows _ Hu Hb) end.
    rewrite !get_user_data_run. simpl. rewrite !lookup_insert_eq. simpl.
    repeat split. by destruct dir.
  - intros Hnb. destruct (bind_UserDatas k uid pl pc lp false 0) as [e'|row] eqn:Hb.
    2:{ destruct Hnb. by eapply bind_UserDatas_bindable. }
    exists e'. split; [|by eapply bind_UserDatas_inl]. unfold open.
    match goal with |- context [upsert_user_data _ _ _ _ _ ?s0] =>
      rewrite (upsert_user_data_unbound k uid pl pc lp s0 rows e' Hu Hb) end.
    simpl. by destruct dir.
Qed.

(** ** The loop and the run *)

Lemma replace_rows_snoc ws row (m : gmap string UserDatasRow) :
  replace_rows (ws ++ [row]) m = <[key row := row]> (replace_rows ws m).
Proof. unfold replace_rows. by rewrite foldl_app. Qed.

Lemma replace_rows_app ws1 ws2 (m : gmap string UserDatasRow) :
  replace_rows (ws1 ++ ws2) m = replace_rows ws2 (replace_rows ws1 m).
Proof. unfold replace_rows. by rewrite foldl_app. Qed.

Lemma replace_rows_other ws : ∀ (m : gmap string UserDatasRow) k,
  (∀ row, row ∈ ws → key row ≠ k) → replace_rows ws m !! k = m !! k.
Proof.
  induction ws as [|w ws IH]; intros m k Hk; simpl; [done|].
  unfold replace_rows in *. simpl. rewrite IH by (intros row ?; apply Hk; by right).
  apply lookup_insert_ne. apply Hk. by left.
Qed.

Lemma replace_rows_last ws1 row ws2 (m : gmap string UserDatasRow) :
  (∀ x, x ∈ ws2 → key x ≠ key row) →
  replace_rows (ws1 ++ row :: ws2) m !! key row = Some row.
Proof.
  intros Hk. rewrite replace_rows_app. change (row :: ws2) with ([row] ++ ws2).
  rewrite replace_rows_app, replace_rows_other by done.
  unfold replace_rows at 1. simpl. apply lookup_insert_eq.
Qed.

Lemma last_with_key (ws : list UserDatasRow) k :
  (∀ row, row ∈ ws → key row ≠ k)
  ∨ ∃ ws1 row ws2, ws = ws1 ++ row :: ws2 ∧ key row = k ∧ ∀ x, x ∈ ws2 → key x ≠ k.
Proof.
  induction ws as [|w ws IH].
  { left. by intros row ?%elem_of_nil. }
  destruct IH as [Hn|(ws1 & row & ws2 & -> & Hr & Hl)].
  - destruct (decide (key w = k)) as [Hw|Hw].
    + right. by exists [], w, ws.
    + left. intros row [->|?]%elem_of_cons; auto.
  - right. by exists (w :: ws1), row, ws2.
Qed.

Lemma replace_rows_twice ws (m : gmap string UserDatasRow) :
  replace_rows ws (replace_rows ws m) = replace_rows ws m.
Proof.
  apply map_eq. intros k.
  destruct (last_with_key ws k) as [Hn|(ws1 & row & ws2 & -> & <- & Hl)].
  - by rewrite replace_rows_other.
  - by rewrite !replace_rows_last.
Qed.

Lemma warnings_log_other s e :
  (∀ w, e ≠ LoggingWarning w) → warnings (trace (log e s)) = warnings (trace s).
Proof.
  intros He. unfold warnings, log. simpl. rewrite omap_app. simpl.
  destruct e; try by rewrite app_nil_r. by destruct (He warning).
Qed.

Lemma applied_row_items user db db' r :
  TypedBaseItems db' = TypedBaseItems db → applied_row user db' r = applied_row user db r.
Proof.
  intros E. unfold applied_row. destruct (skip r) as [|[|]]; try done.
  destruct (path r); [done|]. destruct (last_played r); [|done].
  by rewrite (lookup_path_items _ _ _ E).
Qed.

Lemma lookup_path_no_table db p : TypedBaseItems db = None → lookup_path db p = None.
Proof. unfold lookup_path. by intros ->. Qed.

Lemma option_fmap_id_ext {A : Type} (f : A → A) (x : option A) :
  (∀ a, f a = a) → f <$> x = x.
Proof. intros Hf. destruct x; simpl; by rewrite ?Hf. Qed.

(** One turn of the loop, whatever its outcome: the warnings it logs
    (none), the row it writes and what it leaves in UserDatas when it ends
    normally, and that it writes nothing when it raises. *)
Lemma loop_body_step user db0 r missing s :
  TypedBaseItems (library s) = TypedBaseItems db0 →
  warnings (trace (loop_body user r missing s).2) = warnings (trace s)
  ∧ (∀ m', (loop_body user r missing s).1 = inr m' →
       written (trace (loop_body user r missing s).2)
       = written (trace s) ++ option_list (applied_row user db0 r)
       ∧ UserDatas (library (loop_body user r missing s).2)
         = replace_rows (option_list (applied_row user db0 r)) <$> UserDatas (library s))
  ∧ (∀ e, (loop_body user r missing s).1 = inl e →
       written (trace (loop_body user r missing s).2) = written (trace s)).
Proof.
  intros Hi. rewrite (applied_row_items user (library s) db0 r) by (symmetry; exact Hi).
  unfold applied_row. destruct (skip r) as [e|[|]] eqn:Hs.
  - unfold loop_body, bind, lift. rewrite Hs. cbn [fst snd option_list].
    repeat split; done.
  - rewrite loop_body_skipped by done. cbn [fst snd option_list]. rewrite app_nil_r.
    split; [by apply warnings_log_other|]. split; [|done].
    intros _ _. split; [by apply written_log_other|].
    symmetry. by apply option_fmap_id_ext.
  - destruct (skip_inv _ _ Hs) as (d & f & _ & _ & Hp). rewrite Hp.
    set (s1 := log (SelectTypedBaseItems (d +:+ f)) s).
    assert (written (trace s1) = written (trace s)) as Hw1 by by apply written_log_other.
    assert (warnings (trace s1) = warnings (trace s)) as Hw2
      by by apply warnings_log_other.
    destruct (lookup_path (library s) (d +:+ f)) as [k|] eqn:Hl.
    2:{ assert (loop_body user r missing s =
                  (match TypedBaseItems (library s) with
                   | Some _ => inr (missing ++ [r])
                   | None => inl OperationalError
                   end, s1)) as ->.
        { unfold loop_body, bind, lift. rewrite Hs, Hp.
          rewrite get_user_data_key_for_path_run, Hl.
          by destruct (TypedBaseItems (library s)). }
        assert (match last_played r with Some _ | None => @None UserDatasRow end = None)
          as -> by by destruct (last_played r).
        cbn [fst snd option_list]. rewrite app_nil_r.
        split; [done|]. split; [|done].
        intros _ _. split; [done|]. symmetry. by apply option_fmap_id_ext. }
    destruct (last_played r) as [lp|] eqn:Hlp.
    2:{ assert (loop_body user r missing s = (inl AssertionError, s1)) as ->.
        { unfold loop_body, bind, lift. rewrite Hs, Hp.
          rewrite get_user_data_key_for_path_run, Hl.
          assert (is_Some (TypedBaseItems (library s))) as [items ->].
          { unfold lookup_path in Hl. destruct (TypedBaseItems (library s)); [eauto|done]. }
          by rewrite Hlp. }
        cbn [fst snd]. repeat split; done. }
    rewrite (loop_body_matched user r missing s _ k lp) by done.
    rewrite upsert_user_data_run. fold s1.
    change (library s1) with (library s). unfold row_for.
    destruct (UserDatas (library s)) as [rows|] eqn:Hu.
    2:{ cbn [fst snd]. repeat split; done. }
    destruct (bind_UserDatas _ _ _ _ _ _ _) as [e|row] eqn:Hb.
    { cbn [fst snd]. repeat split; done. }
    apply bind_UserDatas_key in Hb.
    cbn [fst snd option_list]. rewrite <- Hw1, <- Hw2.
    unfold written, warnings, with_library, log, library. simpl.
    rewrite !omap_app. simpl. rewrite !app_nil_r, Hb. repeat split; done.
Qed.

Lemma omap_cons_option_list {A B : Type} (f : A → option B) a l :
  omap f (a :: l) = option_list (f a) ++ omap f l.
Proof. simpl. by destruct (f a). Qed.

(** The loop as a whole: its writes are those of the records it has gone
    through, in order; when it ends normally it has gone through all of them
    and UserDatas holds these writes over what it held. *)
Lemma for_loop_writes user db0 (g : Generator KodiWatched) : ∀ missing s,
  TypedBaseItems (library s) = TypedBaseItems db0 →
  warnings (trace (for_loop user g missing s).2) = warnings (trace s)
  ∧ (∃ n, written (trace (for_loop user g missing s).2)
          = written (trace s) ++ omap (applied_row user db0) (take n (yielded g)))
  ∧ (∀ m', (for_loop user g missing s).1 = inr m' →
       raised g = None
       ∧ written (trace (for_loop user g missing s).2)
         = written (trace s) ++ omap (applied_row user db0) (yielded g)
       ∧ UserDatas (library (for_loop user g missing s).2)
         = replace_rows (omap (applied_row user db0) (yielded g)) <$> UserDatas (library s)).
Proof.
  induction g as [|e|r g IH]; intros missing s Hi; cbn [for_loop yielded raised].
  - cbn [omap list_omap]. split; [done|]. split.
    + exists 0%nat. by rewrite app_nil_r.
    + intros _ _. rewrite app_nil_r. repeat split; try done.
      symmetry. by apply option_fmap_id_ext.
  - split; [done|]. split; [|done]. exists 0%nat. simpl. by rewrite app_nil_r.
  - unfold bind.
    destruct (loop_body_step user db0 r missing s Hi) as (Hwarn & Hok & Hfail).
    pose proof (loop_body_frame user r missing s) as (_ & _ & Hi1 & _).
    destruct (loop_body user r missing s) as [[e|m1] s1]; cbn [fst snd] in *.
    + split; [done|]. split; [|done]. exists 0%nat. rewrite (Hfail e eq_refl).
      simpl. by rewrite app_nil_r.
    + destruct (Hok m1 eq_refl) as [Hw Hu].
      rewrite Hi in Hi1. destruct (IH m1 s1 Hi1) as (IHwarn & [n IHn] & IHok).
      split; [by rewrite IHwarn|]. split.
      * exists (S n). rewrite IHn, Hw, <- app_assoc.
        change (take (S n) (r :: yielded g)) with (r :: take n (yielded g)).
        by rewrite omap_cons_option_list.
      * intros m' Hm'. destruct (IHok m' Hm') as (Hr & Hall & Hud).
        split; [done|]. rewrite Hall, Hw, <- app_assoc, Hud, Hu.
        rewrite omap_cons_option_list. split; [done|].
        destruct (UserDatas (library s)); simpl; [|done].
        by rewrite replace_rows_app.
Qed.

Lemma get_user_by_name_state name s :
  (get_user_by_name name s).2 = log (SelectUsers name) s.
Proof.
  unfold get_user_by_name, select_Users, get_jellyfin, subscript, emit, bind, ret, raise.
  simpl. destruct (Users _) as [users|]; [|done]. by destruct (List.find _ users).
Qed.

Lemma report_run missing s :
  written (trace (report missing s).2) = written (trace s)
  ∧ (length (warnings (trace (report missing s).2))
     ≤ S (length (warnings (trace s))))%nat
  ∧ (∀ e, (report missing s).1 = inl e → (report missing s).2 = s).
Proof.
  unfold report, logging_warning, emit, bind, lift, ret.
  destruct (0 <? _).
  2:{ cbn [fst snd]. split; [done|]. split; [lia|done]. }
  destruct (warning_lines _ _) as [e|w]; cbn [fst snd].
  - split; [done|]. split; [lia|done].
  - split; [by apply written_log_other|]. split; [|done].
    unfold warnings. rewrite trace_log_app, omap_app, length_app. simpl. lia.
Qed.

(** The run, step by step: the state before the first statement, after the
    look-up of the user, and after the loop. *)
Lemma kodi2jellyfin_unfold kodi_tsv dir name :
  let s0 := {| jellyfin_data := {| _jellyfin := connect (jellyfin_db dir);
                                   _library := connect (library_db dir) |};
               trace := [] |} in
  let s1 := log (SelectUsers name) s0 in
  kodi2jellyfin kodi_tsv dir name =
    match (get_user_by_name name s0).1 with
    | inl e => (inl e, dir, trace s1)
    | inr user =>
      match for_loop user (parse kodi_tsv) [] s1 with
      | (inl e, s2) => (inl e, dir, trace s2)
      | (inr missing, s2) =>
        match report missing s2 with
        | (inl e, s3) => (inl e, dir, trace s3)
        | (inr tt, s3) =>
          (inr tt, {| jellyfin_db := jellyfin_db dir; library_db := library s3 |}, trace s3)
        end
      end
    end.
Proof.
  cbv zeta. unfold kodi2jellyfin, open, kodi2jellyfin_body, bind. cbv zeta.
  match goal with |- context [get_user_by_name name ?s] => set (s0 := s) end.
  pose proof (get_user_by_name_state name s0) as Hg.
  destruct (get_user_by_name name s0) as [[e|user] s1]; cbn [fst snd] in *; subst s1.
  { simpl. by destruct dir. }
  pose proof (for_loop_frame user (parse kodi_tsv) [] (log (SelectUsers name) s0))
    as (A & B & _).
  destruct (for_loop user (parse kodi_tsv) [] _) as [[e|missing] s2]; cbn [fst snd] in *.
  { unfold close, rollback. simpl. rewrite A, B. simpl. by destruct dir. }
  pose proof (report_data missing s2) as Hr.
  destruct (report missing s2) as [[e|[]] s3]; cbn [fst snd] in *.
  - unfold close, rollback. simpl. rewrite Hr, A, B. simpl. by destruct dir.
  - unfold close, commit, library. simpl. rewrite Hr, A. reflexivity.
Qed.

Lemma applied_row_fields user db r row :
  applied_row user db r = Some row →
  resolves_to db r (key row)
  ∧ userId row = internal_id user ∧ playCount row = play_count r
  ∧ played row = (0 <? playCount row)
  ∧ isFavorite row = false ∧ playbackPositionTicks row = 0.
Proof.
  unfold applied_row, resolves_to. destruct (skip r) as [|[|]]; try done.
  destruct (path r) as [|p]; [done|]. destruct (last_played r) as [lp|]; [|done].
  destruct (lookup_path db p) as [k|] eqn:Hl; [|done].
  destruct (row_for user k (play_count r) lp) as [e|row'] eqn:Hb; [done|].
  intros [= <-]. apply bind_UserDatas_inr in Hb as (_ & _ & t & _ & _ & ->). simpl.
  repeat split; try done. by exists p.
Qed.

(** What a run has written and left when it is over, for a user that is
    found. *)
Lemma run_writes_found kodi_tsv dir name users urow :
  Users (jellyfin_db dir) = Some users →
  List.find (λ x : UsersRow, bool_decide (Username x = name)) users = Some urow →
  let user := {| username := Username urow; internal_id := InternalId urow |} in
  let run := kodi2jellyfin kodi_tsv dir name in
  (∃ n, written run.2
        = omap (applied_row user (library_db dir)) (take n (yielded (parse kodi_tsv))))
  ∧ (run.1.1 = inr tt →
     raised (parse kodi_tsv) = None
     ∧ written run.2 = omap (applied_row user (library_db dir)) (yielded (parse kodi_tsv))
     ∧ UserDatas (library_db run.1.2)
       = replace_rows (written run.2) <$> UserDatas (library_db dir)).
Proof.
  intros Hu Hf. cbv zeta. rewrite kodi2jellyfin_unfold. cbv zeta.
  erewrite get_user_by_name_found by done. cbn [fst].
  match goal with |- context [for_loop ?u _ [] ?s1] =>
    destruct (for_loop_writes u (library_db dir) (parse kodi_tsv) [] s1 eq_refl)
      as (_ & [n Hn] & Hok);
    destruct (for_loop u (parse kodi_tsv) [] s1) as [[e|missing] s2] end;
    cbn [fst snd] in *.
  { split; [by exists n|done]. }
  destruct (Hok missing eq_refl) as (Hr & Hall & Hud).
  destruct (report_run missing s2) as (Hw & _ & Hfail).
  pose proof (report_data missing s2) as Hd.
  destruct (report missing s2) as [[e|[]] s3]; cbn [fst snd] in *.
  - rewrite Hw. split; [by exists n|done].
  - rewrite Hw. split; [by exists n|]. intros _. split; [done|]. split; [done|].
    simpl in Hall. rewrite Hall. unfold library in *. simpl in *. rewrite Hd.
    exact Hud.
Qed.

(** X13: a run logs at most one warning, and none when it ends with an
    exception: records found missing before the failure are not reported. *)
Theorem run_warnings kodi_tsv dir name :
  (length (warnings (kodi2jellyfin kodi_tsv dir name).2) ≤ 1)%nat
  ∧ ∀ e, (kodi2jellyfin kodi_tsv dir name).1.1 = inl e →
         warnings (kodi2jellyfin kodi_tsv dir name).2 = [].
Proof.
  rewrite kodi2jellyfin_unfold. cbv zeta.
  destruct (get_user_by_name name _).1 as [e|user]; cbn [fst snd].
  { split; [simpl; lia|done]. }
  match goal with |- context [for_loop ?u _ [] ?s1] =>
    destruct (for_loop_writes u (library_db dir) (parse kodi_tsv) [] s1 eq_refl)
      as (Hwarn & _ & _);
    destruct (for_loop u (parse kodi_tsv) [] s1) as [[e|missing] s2] end;
    cbn [fst snd] in *.
  { rewrite Hwarn. split; [simpl; lia|done]. }
  destruct (report_run missing s2) as (_ & Hlen & Hfail).
  destruct (report missing s2) as [[e|[]] s3]; cbn [fst snd] in *.
  - rewrite (Hfail e eq_refl), Hwarn. split; [simpl; lia|done].
  - rewrite Hwarn in Hlen. split; [exact Hlen|done].
Qed.

(** X14: in every run for a user that is found, whether it ends well or
    not, the rows written are those of the first records of the input, in
    order, each the row of a record that is not skipped and whose path the
    items table knows: it carries the internal id of the user, the play count
    of the record, played = (0 < playCount), isFavorite = false and no
    playback position.  When the run ends normally they are the rows of all
    the records. *)
Theorem run_writes kodi_tsv dir name users urow :
  Users (jellyfin_db dir) = Some users →
  List.find (λ x : UsersRow, bool_decide (Username x = name)) users = Some urow →
  let user := {| username := Username urow; internal_id := InternalId urow |} in
  let run := kodi2jellyfin kodi_tsv dir name in
  (∃ n, written run.2
        = omap (applied_row user (library_db dir)) (take n (yielded (parse kodi_tsv))))
  ∧ (run.1.1 = inr tt →
     written run.2 = omap (applied_row user (library_db dir)) (yielded (parse kodi_tsv)))
  ∧ Forall (λ row,
       userId row = InternalId urow
       ∧ played row = (0 <? playCount row)
       ∧ isFavorite row = false ∧ playbackPositionTicks row = 0
       ∧ ∃ r, r ∈ yielded (parse kodi_tsv)
              ∧ resolves_to (library_db dir) r (key row)
              ∧ playCount row = play_count r)
      (written run.2).
Proof.
  intros Hu Hf user run.
  destruct (run_writes_found kodi_tsv dir name users urow Hu Hf) as ([n Hn] & Hok).
  fold user run in Hn, Hok. split; [by exists n|]. split; [by intros (_ & ? & _)%Hok|].
  rewrite Hn. apply List.Forall_forall. intros row Hrow%list_elem_of_In.
  apply list_elem_of_omap in Hrow as (r & Hr & Happ).
  apply applied_row_fields in Happ as (? & ? & ? & ? & ? & ?).
  repeat split; try done. exists r. repeat split; try done.
  eapply (sublist_subseteq _ _ (sublist_take _ n)). exact Hr.
Qed.

Lemma run_success_rows kodi_tsv dir name :
  (kodi2jellyfin kodi_tsv dir name).1.1 = inr tt →
  UserDatas (library_db (kodi2jellyfin kodi_tsv dir name).1.2)
  = replace_rows (written (kodi2jellyfin kodi_tsv dir name).2)
      <$> UserDatas (library_db dir).
Proof.
  intros Hok. pose proof Hok as Hok'. revert Hok'.
  rewrite kodi2jellyfin_unfold at 1. cbv zeta.
  destruct (get_user_by_name name _) as [[e|user] s1] eqn:Hg; cbn [fst]; [done|].
  intros _. revert Hg.
  unfold get_user_by_name, select_Users, get_jellyfin, subscript, emit, bind, ret, raise.
  simpl. destruct (Users (jellyfin_db dir)) as [users|] eqn:Hu; [|done].
  destruct (List.find _ users) as [urow|] eqn:Hf; [|done]. intros _.
  by destruct (run_writes_found kodi_tsv dir name users urow Hu Hf) as (_ & Hr);
    destruct (Hr Hok) as (_ & _ & ?).
Qed.

(** X15: when a run ends normally, UserDatas holds the rows of the trace
    written one after the other over what it held: under each key the row
    written last under that key (the last record wins), and under a key that
    no row was written for, the row that was there. *)
Theorem run_final_rows kodi_tsv dir name :
  let run := kodi2jellyfin kodi_tsv dir name in
  (run.1.1 = inr tt →
   UserDatas (library_db run.1.2)
   = replace_rows (written run.2) <$> UserDatas (library_db dir))
  ∧ (∀ ws (m : gmap string UserDatasRow) k,
       (∀ row, row ∈ ws → key row ≠ k) → replace_rows ws m !! k = m !! k)
  ∧ (∀ ws1 row ws2 (m : gmap string UserDatasRow),
       (∀ x, x ∈ ws2 → key x ≠ key row) →
       replace_rows (ws1 ++ row :: ws2) m !! key row = Some row).
Proof.
  cbv zeta. split; [apply run_success_rows|].
  split; [apply replace_rows_other|apply replace_rows_last].
Qed.

Lemma for_loop_skipped user (rs : list KodiWatched) : ∀ missing s,
  Forall (λ r, skip r = inr true) rs →
  for_loop user (iter rs) missing s =
    (inr missing,
     {| jellyfin_data := jellyfin_data s; trace := trace s ++ (LoggingDebug <$> rs) |}).
Proof.
  induction rs as [|r rs IH]; intros missing s Hrs; simpl.
  { rewrite app_nil_r. by destruct s. }
  apply Forall_cons_1 in Hrs as [Hr Hrs]. unfold bind.
  rewrite loop_body_skipped by done. rewrite IH by done. unfold log. simpl.
  by rewrite <- app_assoc.
Qed.

(** X16: a run over rows that are all skipped (or over no row) needs only
    the users database: for a user that is found it ends normally with the
    directory as it was, having sent no statement to the library, whether the
    tables of the library exist or not. *)
Theorem run_only_skipped kodi_tsv dir name users urow :
  Users (jellyfin_db dir) = Some users →
  List.find (λ x : UsersRow, bool_decide (Username x = name)) users = Some urow →
  raised (parse kodi_tsv) = None →
  Forall (λ r, skip r = inr true) (yielded (parse kodi_tsv)) →
  kodi2jellyfin kodi_tsv dir name
  = (inr tt, dir, SelectUsers name :: (LoggingDebug <$> yielded (parse kodi_tsv))).
Proof.
  intros Hu Hf Hr Hs. rewrite kodi2jellyfin_unfold. cbv zeta.
  erewrite get_user_by_name_found by done. cbn [fst].
  rewrite (iter_yielded _ Hr) at 1. rewrite for_loop_skipped by done.
  unfold report, ret, library. simpl. by destruct dir.
Qed.

Lemma get_user_by_name_result name s :
  (get_user_by_name name s).1 =
    match Users (current (_jellyfin (jellyfin_data s))) with
    | None => inl OperationalError
    | Some users =>
      match List.find (λ x : UsersRow, bool_decide (Username x = name)) users with
      | None => inl TypeError
      | Some row => inr {| username := Username row; internal_id := InternalId row |}
      end
    end.
Proof.
  unfold get_user_by_name, select_Users, get_jellyfin, subscript, emit, bind, ret, raise.
  simpl. destruct (Users _) as [users|]; [|done]. by destruct (List.find _ users).
Qed.

(** Two states with the same trace, the same items table and UserDatas
    present in both or in neither: a turn of the loop has the same outcome
    and leaves the same trace in both. *)
Lemma loop_body_sim user r missing s s' :
  trace s = trace s' →
  TypedBaseItems (library s) = TypedBaseItems (library s') →
  (is_Some (UserDatas (library s)) ↔ is_Some (UserDatas (library s'))) →
  (loop_body user r missing s).1 = (loop_body user r missing s').1
  ∧ trace (loop_body user r missing s).2 = trace (loop_body user r missing s').2.
Proof.
  intros Ht Hi Hu. destruct (skip r) as [e|[|]] eqn:Hs.
  - unfold loop_body, bind, lift. by rewrite Hs.
  - rewrite !loop_body_skipped by done. simpl. by rewrite Ht.
  - destruct (skip_inv _ _ Hs) as (d & f & _ & _ & Hp).
    unfold loop_body, bind, lift. rewrite Hs, Hp, !get_user_data_key_for_path_run.
    rewrite (lookup_path_items _ _ _ Hi), Hi.
    destruct (TypedBaseItems (library s')) as [items|]; [|simpl; by rewrite Ht].
    destruct (lookup_path (library s') (d +:+ f)) as [k|]; [|simpl; by rewrite Ht].
    destruct (last_played r) as [lp|]; [|simpl; by rewrite Ht].
    rewrite !upsert_user_data_run.
    change (library (log (SelectTypedBaseItems (d +:+ f)) s)) with (library s).
    change (library (log (SelectTypedBaseItems (d +:+ f)) s')) with (library s').
    destruct (UserDatas (library s)) as [rows|] eqn:Hus;
      destruct (UserDatas (library s')) as [rows'|] eqn:Hus'.
    + destruct (bind_UserDatas _ _ _ _ _ _ _); simpl; by rewrite Ht.
    + destruct Hu as [Hu _]. by destruct Hu.
    + destruct Hu as [_ Hu]. by destruct Hu.
    + simpl. by rewrite Ht.
Qed.

Lemma for_loop_sim user (g : Generator KodiWatched) : ∀ missing s s',
  trace s = trace s' →
  TypedBaseItems (library s) = TypedBaseItems (library s') →
  (is_Some (UserDatas (library s)) ↔ is_Some (UserDatas (library s'))) →
  (for_loop user g missing s).1 = (for_loop user g missing s').1
  ∧ trace (for_loop user g missing s).2 = trace (for_loop user g missing s').2.
Proof.
  induction g as [|e|r g IH]; intros missing s s' Ht Hi Hu; simpl; try done.
  unfold bind. destruct (loop_body_sim user r missing s s' Ht Hi Hu) as [E1 E2].
  pose proof (loop_body_frame user r missing s) as (_ & _ & F1 & F2 & _).
  pose proof (loop_body_frame user r missing s') as (_ & _ & F1' & F2' & _).
  destruct (loop_body user r missing s) as [[e|m1] s1];
    destruct (loop_body user r missing s') as [[e'|m1'] s1']; cbn [fst snd] in *;
    try done.
  injection E1 as <-. apply IH; [done|congruence|tauto].
Qed.

Lemma report_sim missing s s' :
  trace s = trace s' →
  (report missing s).1 = (report missing s').1
  ∧ trace (report missing s).2 = trace (report missing s').2.
Proof.
  intros Ht. unfold report, logging_warning, emit, bind, lift, ret.
  destruct (0 <? _); [|done]. destruct (warning_lines _ _); simpl; by rewrite ?Ht.
Qed.

Lemma kodi2jellyfin_sim kodi_tsv dir dir' name :
  jellyfin_db dir = jellyfin_db dir' →
  TypedBaseItems (library_db dir) = TypedBaseItems (library_db dir') →
  (is_Some (UserDatas (library_db dir)) ↔ is_Some (UserDatas (library_db dir'))) →
  (kodi2jellyfin kodi_tsv dir name).1.1 = (kodi2jellyfin kodi_tsv dir' name).1.1
  ∧ (kodi2jellyfin kodi_tsv dir name).2 = (kodi2jellyfin kodi_tsv dir' name).2.
Proof.
  intros Hj Hi Hu. rewrite !kodi2jellyfin_unfold. cbv zeta.
  rewrite !get_user_by_name_result. simpl. rewrite Hj.
  destruct (Users (jellyfin_db dir')) as [users|]; [|done].
  destruct (List.find _ users) as [urow|]; [|done].
  match goal with |- context [for_loop ?u ?g [] ?s1] =>
    match goal with |- context [for_loop u g [] ?s1'] =>
      lazymatch s1' with s1 => fail | _ =>
        destruct (for_loop_sim u g [] s1 s1' eq_refl Hi Hu) as [E1 E2];
        destruct (for_loop u g [] s1) as [[e|m] s2];
        destruct (for_loop u g [] s1') as [[e'|m'] s2']
      end end end; cbn [fst snd] in *; simplify_eq; try done.
  destruct (report_sim m' s2 s2' E2) as [R1 R2].
  destruct (report m' s2) as [[e|[]] s3]; destruct (report m' s2') as [[e'|[]] s3'];
    cbn [fst snd] in *; simplify_eq; done.
Qed.

Lemma run_frame kodi_tsv dir name :
  jellyfin_db (kodi2jellyfin kodi_tsv dir name).1.2 = jellyfin_db dir
  ∧ TypedBaseItems (library_db (kodi2jellyfin kodi_tsv dir name).1.2)
    = TypedBaseItems (library_db dir)
  ∧ (is_Some (UserDatas (library_db (kodi2jellyfin kodi_tsv dir name).1.2))
     ↔ is_Some (UserDatas (library_db dir)))
  ∧ (∀ e, (kodi2jellyfin kodi_tsv dir name).1.1 = inl e →
          (kodi2jellyfin kodi_tsv dir name).1.2 = dir).
Proof.
  unfold kodi2jellyfin, open.
  match goal with |- context [kodi2jellyfin_body _ _ ?s0] =>
    pose proof (body_frame kodi_tsv name s0) as (A & B & C & D & _) end.
  destruct (kodi2jellyfin_body _ _ _) as [[e'|[]] s1]; simpl in *.
  - unfold close, rollback. simpl. rewrite A, B. simpl.
    repeat split; try tauto. intros _ _. by destruct dir.
  - unfold close, commit. simpl. rewrite A. simpl. unfold library in *. simpl in *.
    repeat split; try tauto. done.
Qed.

(** X17: the script never reads UserDatas: two runs on directories that
    differ only in the rows of UserDatas have the same outcome and the same
    trace (the same statements, with the same rows written). *)
Theorem run_ignores_user_data kodi_tsv dir dir' name :
  jellyfin_db dir = jellyfin_db dir' →
  TypedBaseItems (library_db dir) = TypedBaseItems (library_db dir') →
  (is_Some (UserDatas (library_db dir)) ↔ is_Some (UserDatas (library_db dir'))) →
  (kodi2jellyfin kodi_tsv dir name).1.1 = (kodi2jellyfin kodi_tsv dir' name).1.1
  ∧ (kodi2jellyfin kodi_tsv dir name).2 = (kodi2jellyfin kodi_tsv dir' name).2.
Proof. apply kodi2jellyfin_sim. Qed.

(** X18: a run can be repeated: run again on the directory it has left,
    with the same input and user, the script ends the same way with the same
    trace and leaves the directory as it found it. *)
Theorem run_twice kodi_tsv dir name :
  kodi2jellyfin kodi_tsv (kodi2jellyfin kodi_tsv dir name).1.2 name
  = kodi2jellyfin kodi_tsv dir name.
Proof.
  destruct (run_frame kodi_tsv dir name) as (Fj & Fi & Fu & Ffail).
  destruct (kodi2jellyfin kodi_tsv dir name) as [[r1 dir1] tr1] eqn:Hrun1.
  cbn [fst snd] in *. destruct r1 as [e|[]].
  { pose proof (Ffail e eq_refl) as Hd. subst dir1. exact Hrun1. }
  destruct (kodi2jellyfin_sim kodi_tsv dir1 dir name Fj Fi Fu) as [E1 E2].
  destruct (run_frame kodi_tsv dir1 name) as (Gj & Gi & Gu & _).
  pose proof (run_success_rows kodi_tsv dir name) as R1.
  pose proof (run_success_rows kodi_tsv dir1 name) as R2.
  rewrite Hrun1 in E1, E2, R1. cbn [fst snd] in *.
  specialize (R1 eq_refl). specialize (R2 E1). rewrite E2, R1 in R2.
  destruct (kodi2jellyfin kodi_tsv dir1 name) as [[r2 dir2] tr2]. cbn [fst snd] in *.
  subst r2 tr2. f_equal. f_equal.
  destruct dir2 as [j2 [i2 u2]], dir1 as [j1 [i1 u1]]. simpl in *. subst j2 i2.
  f_equal. f_equal. rewrite R2, R1.
  destruct (UserDatas (library_db dir)); simpl; [|done]. by rewrite replace_rows_twice.
Qed.

(** X19: the check before the upsert fails for exactly one kind of record:
    one that is not skipped, whose path the items table knows, and that has no
    time of last play; it fails after the look-up of the path and before any
    row is written.  A record without that time that is skipped or missing
    from the items table goes through. *)
Theorem assertion_only_when_matched user r missing s :
  ((loop_body user r missing s).1 = inl AssertionError ↔
     ∃ p k, skip r = inr false ∧ path r = inr p
            ∧ lookup_path (library s) p = Some k ∧ last_played r = None)
  ∧ ((loop_body user r missing s).1 = inl AssertionError →
     ∃ p, path r = inr p ∧ (loop_body user r missing s).2 = log (SelectTypedBaseItems p) s).
Proof.
  destruct (skip r) as [e|[|]] eqn:Hs.
  - unfold loop_body, bind, lift. rewrite Hs. cbn [fst snd]. apply skip_inl in Hs.
    split; [split|]; try (intros [= ->]; done). by intros (? & ? & ? & _).
  - rewrite loop_body_skipped by done. cbn [fst snd].
    split; [split|]; try done. by intros (? & ? & ? & _).
  - destruct (skip_inv _ _ Hs) as (d & f & _ & _ & Hp).
    unfold loop_body, bind, lift. rewrite Hs, Hp, get_user_data_key_for_path_run.
    destruct (TypedBaseItems (library s)) as [items|] eqn:Hi.
    2:{ cbn [fst snd]. split; [split|]; try done.
        intros (p & k & _ & [= <-] & Hl & _).
        by rewrite lookup_path_no_table in Hl. }
    destruct (lookup_path (library s) (d +:+ f)) as [k|] eqn:Hl.
    2:{ cbn [fst snd]. split; [split|]; try done.
        intros (p & k & _ & [= <-] & Hl' & _). congruence. }
    destruct (last_played r) as [lp|] eqn:Hlp.
    + rewrite upsert_user_data_run.
      destruct (UserDatas (library (log (SelectTypedBaseItems (d +:+ f)) s))) eqn:Hu.
      * destruct (bind_UserDatas _ _ _ _ _ _ _) as [e|row] eqn:Hb; cbn [fst snd].
        -- assert (e ≠ AssertionError) as He.
           { by destruct (bind_UserDatas_inl _ _ _ _ _ _ _ _ Hb) as [->|[->| ->]]. }
           split; [split|]; try (intros [= ?]; done). by intros (? & ? & _ & _ & _ & ?).
        -- split; [split|]; try done. by intros (? & ? & _ & _ & _ & ?).
      * cbn [fst snd]. split; [split|]; try done. by intros (? & ? & _ & _ & _ & ?).
    + cbn [fst snd]. split; [split|]; eauto 10.
Qed.

Lemma string_app_assoc (a b c : string) : (a +:+ b) +:+ c = a +:+ (b +:+ c).
Proof.
  induction a as [|x a IH]; [done|].
  change (String x ((a +:+ b) +:+ c) = String x (a +:+ (b +:+ c))). by rewrite IH.
Qed.

Lemma string_app_nil_r (a : string) : a +:+ "" = a.
Proof.
  induction a as [|x a IH]; [done|].
  change (String x (a +:+ "") = String x a). by rewrite IH.
Qed.

Lemma warning_lines_infix (missing : list KodiWatched) : ∀ w0 w,
  warning_lines w0 missing = inr w →
  (∃ rest, w = w0 +:+ rest)
  ∧ ∀ r p, r ∈ missing → path r = inr p →
           ∃ pre post, w = pre +:+ (newline +:+ (p +:+ post)).
Proof.
  induction missing as [|r0 missing IH]; intros w0 w; simpl.
  { intros [= <-]. split; [exists ""; by rewrite string_app_nil_r|].
    by intros r p ?%elem_of_nil. }
  unfold bind_exn. destruct (path r0) as [e|p0] eqn:Hp0; [discriminate|].
  intros [[rest Hrest] Hin]%IH. split.
  - exists ((newline +:+ p0) +:+ rest). by rewrite <- string_app_assoc.
  - intros r p [->|Hr]%elem_of_cons Hp; [|by eapply Hin].
    rewrite Hp0 in Hp. injection Hp as <-. exists w0, rest.
    by rewrite Hrest, !string_app_assoc.
Qed.

(** X20: the text of the warning is the fixed sentence followed by more,
    and the path of every missing record is in it, at the start of a line. *)
Theorem warning_lists_every_path (missing : list KodiWatched) w :
  warning_lines warning_head missing = inr w →
  (∃ rest, w = warning_head +:+ rest)
  ∧ ∀ r p, r ∈ missing → path r = inr p →
           ∃ pre post, w = pre +:+ (newline +:+ (p +:+ post)).
Proof. apply warning_lines_infix. Qed.

Lemma prefix_app (pre d f : string) :
  String.prefix pre d = true → String.prefix pre (d +:+ f) = true.
Proof.
  revert d. induction pre as [|a pre IH]; intros d.
  { intros _. destruct d as [|b d]; [by destruct f|done]. }
  destruct d as [|b d]; [discriminate|].
  change (String b d +:+ f) with (String b (d +:+ f)). cbn [String.prefix].
  destruct (ascii_dec a b); [apply IH|discriminate].
Qed.

(** X21: the rule of the skip.  A record is skipped exactly when it has a
    folder and a file name, and their concatenation is "/" or the folder
    starts with "plugin://" (the path then starts with it too); the
    concatenation is "/" for just two records, folder "/" with an empty file
    name and an empty folder with file name "/".  The condition raises
    ([TypeError]) exactly when the folder or the file name is [None]. *)
Theorem skip_policy r :
  (skip r = inr true ↔
     ∃ d f, folder r = Some d ∧ file_name r = Some f
            ∧ (d +:+ f = "/" ∨ startswith d "plugin://" = true))
  ∧ (∀ d f, startswith d "plugin://" = true → startswith (d +:+ f) "plugin://" = true)
  ∧ (∀ d f : string, d +:+ f = "/" ↔ (d = "/" ∧ f = "") ∨ (d = "" ∧ f = "/"))
  ∧ (∀ e, skip r = inl e ↔ e = TypeError ∧ (folder r = None ∨ file_name r = None)).
Proof.
  split; [|split; [|split]].
  - split.
    + intros Hs. destruct (skip_inv _ _ Hs) as (d & f & Hd & Hf & Hp).
      exists d, f. split; [done|]. split; [done|]. revert Hs.
      unfold skip, bind_exn. rewrite Hp, Hd.
      destruct (String.eqb_spec (d +:+ f) "/"); [by left|]. intros [= ->]. by right.
    + intros (d & f & Hd & Hf & Hc). by eapply skip_true.
  - intros d f. apply prefix_app.
  - intros d f. split.
    + destruct d as [|a [|b d]].
      * change ("" +:+ f) with f. intros ->. by right.
      * change (String a "" +:+ f) with (String a f). intros [= -> ->]. by left.
      * change (String a (String b d) +:+ f) with (String a (String b (d +:+ f))).
        discriminate.
    + by intros [[-> ->]|[-> ->]].
  - intros e. unfold skip, path, bind_exn.
    destruct (folder r) as [d|], (file_name r) as [f|]; simpl.
    + destruct (String.eqb _ _); split; try done; by intros [_ [?|?]].
    + split; [intros [= <-]; eauto|by intros [-> _]].
    + split; [intros [= <-]; eauto|by intros [-> _]].
    + split; [intros [= <-]; eauto|by intros [-> _]].
Qed.

End Further.

(** ** The further properties at work *)

Lemma parse_no_data_rows_witness :
  parse (H:=sample_python) [] = StopIteration
  ∧ parse (H:=sample_python) [["strPath"; "title"]; []; []] = StopIteration.
Proof.
  apply (parse_no_data_rows (H:=sample_python) ["strPath"; "title"] [[]; []]).
  repeat constructor.
Defined.

Lemma parse_header_without_column_witness :
  let fieldnames := ["strFileName"; "lastPlayed"; "playCount"] in
  let rows := [[]; ["foo.mkv"; "2023-01-01T00:00:00"; "3"]] in
  yielded (parse (H:=sample_python) (fieldnames :: rows)) = []
  ∧ (Exists (λ row, row ≠ []) rows →
     is_Some (raised (parse (H:=sample_python) (fieldnames :: rows))))
  ∧ (Exists (λ row, row ≠ []) rows → "strPath" ∉ fieldnames →
     raised (parse (H:=sample_python) (fieldnames :: rows)) = Some (KeyError "strPath")).
Proof.
  apply (parse_header_without_column (H:=sample_python)
           ["strFileName"; "lastPlayed"; "playCount"]
           [[]; ["foo.mkv"; "2023-01-01T00:00:00"; "3"]] "strPath").
  - apply (bool_decide_unpack _). exact I.
  - apply (bool_decide_unpack _). exact I.
Defined.

Lemma dict_of_row_column_order_witness :
  dict_of_row Ex.header Ex.foo_row
  = dict_of_row ["playCount"; "strPath"; "lastPlayed"; "strFileName"]
      ["3"; "/movies/"; "2023-01-01T00:00:00"; "foo.mkv"]
  ∧ KodiWatched_of_row (H:=sample_python) (dict_of_row Ex.header Ex.foo_row)
    = KodiWatched_of_row (H:=sample_python)
        (dict_of_row ["playCount"; "strPath"; "lastPlayed"; "strFileName"]
           ["3"; "/movies/"; "2023-01-01T00:00:00"; "foo.mkv"]).
Proof.
  apply (dict_of_row_column_order (H:=sample_python) Ex.header Ex.foo_row
           ["playCount"; "strPath"; "lastPlayed"; "strFileName"]
           ["3"; "/movies/"; "2023-01-01T00:00:00"; "foo.mkv"]).
  - apply (bool_decide_unpack _). exact I.
  - reflexivity.
  - reflexivity.
  - unfold Ex.header, Ex.foo_row. simpl.
    apply (Permutation_cons_app [_] [_; _]). simpl.
    apply (Permutation_cons_app [_; _] []). simpl.
    apply (Permutation_cons_app [_] []). reflexivity.
Defined.

Lemma dict_factory_lookup_witness :
  (∀ i c v, Ex2.users_description !! i = Some c → ["u1"; "alice"] !! i = Some v →
     _dict_factory Ex2.users_description ["u1"; "alice"] !! column_name c = Some v)
  ∧ (∀ k, k ∉ column_name <$> Ex2.users_description →
          _dict_factory Ex2.users_description ["u1"; "alice"] !! k = None).
Proof.
  apply (dict_factory_lookup Ex2.users_description ["u1"; "alice"]).
  apply (bool_decide_unpack _). exact I.
Defined.

Lemma upsert_then_get_witness :
  (upsert_user_data (H:=sample_python) "key1" "u1" true 3 Ex.new_year Ex.start).1 = inr tt
  ∧ ∀ k', (get_user_data k'
             (upsert_user_data (H:=sample_python) "key1" "u1" true 3 Ex.new_year
                Ex.start).2).1 =
          if decide (k' = "key1")
          then inr (Some (UserData.mk "key1" "u1" true 3 1672531200 false 0))
          else (get_user_data k' Ex.start).1.
Proof.
  apply (proj1 (upsert_then_get (H:=sample_python) "key1" "u1" true 3 Ex.new_year Ex.start
                  {[ "key1" := Ex.old_row ]} eq_refl)
           (inject_Z 1672531200)).
  - int64_by_computation.
  - reflexivity.
  - int64_by_computation.
Defined.

Lemma open_commits_or_rolls_back_witness :
  let written := UserData.mk "key1" "u1" true 3 1672531200 false 0 in
  let first := open Ex.data_dir
                 (upsert_user_data (H:=sample_python) "key1" "u1" true 3 Ex.new_year) in
  let second := open first.1.2 (get_user_data (H:=sample_python) "key1") in
  first.1.1 = inr tt
  ∧ second.1.1 = inr (Some written)
  ∧ second.1.2 = first.1.2
  ∧ (open Ex.data_dir
       (upsert_user_data (H:=sample_python) "key1" "u1" true 3 Ex.new_year;;;
        get_user_data "key1")).1.1
    = inr (Some written)
  ∧ (open Ex.data_dir
       (upsert_user_data (H:=sample_python) "key1" "u1" true 3 Ex.new_year;;;
        (raise ValueError : M unit))).1
    = (inl ValueError, Ex.data_dir).
Proof.
  apply (proj1 (open_commits_or_rolls_back (H:=sample_python) Ex.data_dir "key1" "u1" true 3
                  Ex.new_year {[ "key1" := Ex.old_row ]} ValueError eq_refl)
           (inject_Z 1672531200)).
  - int64_by_computation.
  - reflexivity.
  - int64_by_computation.
Defined.

Lemma run_writes_witness :
  let tsv := [Ex.header; Ex.bar_row; Ex.foo_row; Ex.negative_row; Ex.bad_count_row] in
  let urow := {| InternalId := "u1"; Username := "alice" |} in
  let run := kodi2jellyfin (H:=sample_python) tsv Ex.data_dir "alice" in
  (∃ n, written run.2
        = omap (applied_row Ex.alice (library_db Ex.data_dir))
            (take n (yielded (parse (H:=sample_python) tsv))))
  ∧ (run.1.1 = inr tt →
     written run.2
     = omap (applied_row Ex.alice (library_db Ex.data_dir)) (yielded (parse (H:=sample_python) tsv)))
  ∧ Forall (λ row,
       userId row = InternalId urow
       ∧ played row = (0 <? playCount row)
       ∧ isFavorite row = false ∧ playbackPositionTicks row = 0
       ∧ ∃ r, r ∈ yielded (parse (H:=sample_python) tsv)
              ∧ resolves_to (library_db Ex.data_dir) r (key row)
              ∧ playCount row = play_count r)
      (written run.2).
Proof.
  apply (run_writes (H:=sample_python)
           [Ex.header; Ex.bar_row; Ex.foo_row; Ex.negative_row; Ex.bad_count_row]
           Ex.data_dir "alice" [ {| InternalId := "u1"; Username := "alice" |} ]
           {| InternalId := "u1"; Username := "alice" |});
    reflexivity.
Defined.

Lemma run_only_skipped_witness :
  kodi2jellyfin (H:=sample_python) [Ex.header; Ex.plugin_row; []; Ex.root_row]
    Ex2.no_library "alice"
  = (inr tt, Ex2.no_library,
     SelectUsers "alice"
     :: (LoggingDebug <$> yielded (parse [Ex.header; Ex.plugin_row; []; Ex.root_row]))).
Proof.
  apply (run_only_skipped (H:=sample_python) [Ex.header; Ex.plugin_row; []; Ex.root_row]
           Ex2.no_library "alice" [ {| InternalId := "u1"; Username := "alice" |} ]
           {| InternalId := "u1"; Username := "alice" |}).
  - reflexivity.
  - reflexivity.
  - reflexivity.
  - match goal with |- Forall _ ?l =>
      let v := eval vm_compute in l in change l with v end.
    repeat constructor.
Defined.

Lemma run_ignores_user_data_witness :
  let tsv := [Ex.header; Ex.bar_row; Ex.foo_row] in
  (kodi2jellyfin (H:=sample_python) tsv Ex.data_dir "alice").1.1
  = (kodi2jellyfin (H:=sample_python) tsv Ex.data_dir_after "alice").1.1
  ∧ (kodi2jellyfin (H:=sample_python) tsv Ex.data_dir "alice").2
    = (kodi2jellyfin (H:=sample_python) tsv Ex.data_dir_after "alice").2.
Proof.
  apply (run_ignores_user_data (H:=sample_python) [Ex.header; Ex.bar_row; Ex.foo_row]
           Ex.data_dir Ex.data_dir_after "alice").
  - reflexivity.
  - reflexivity.
  - simpl. split; eauto.
Defined.

Lemma warning_lists_every_path_witness :
  let w := warning_head +:+ (newline +:+ "/movies/bar.mkv")
             +:+ (newline +:+ "/shows/baz.mkv") in
  (∃ rest, w = warning_head +:+ rest)
  ∧ ∀ r p, r ∈ [Ex2.bar; Ex2.baz] → path r = inr p →
           ∃ pre post, w = pre +:+ (newline +:+ (p +:+ post)).
Proof.
  apply (warning_lists_every_path (H:=sample_python) [Ex2.bar; Ex2.baz]).
  reflexivity.
Defined.
